(** * p2plab: scenario planner, mesh connector and benchmark orchestrator

    A shallow embedding of

    - [scenarios.Plan] and [scenarios.AddOptionsFromDefinition],
    - [nodes.Connect] (nodes/connect.go),
    - [benchmarkrouter.postBenchmarksCreate] and
      [benchmarkrouter.deleteBenchmarks]
      (labd/routers/benchmarkrouter/router.go),

    and the properties of them that the design document states, followed by
    further properties that the code itself shows.

    Go values are modelled as follows.  A [map[string]T] is a
    [gmap string T]; where the source distinguishes a nil map from an
    allocated one the model uses [option].  A [(T, error)] return is a
    [result T]; a lone [error] return is an [option error].  Ranging over a
    Go map visits the entries in an order the language leaves open: every
    such loop takes the order it runs in as an argument.  Goroutines started
    through an [errgroup.Group] run to completion in an order that the
    scheduler picks: that order is an argument as well. *)

From Stdlib Require Import Ascii.
From stdpp Require Import gmap strings list pretty.

Open Scope string_scope.

(** ** Errors and results *)

(** Error values.  [Opaque] is an error produced by a collaborator whose code
    is outside the modelled files; the other constructors are the errors the
    modelled code builds itself. *)
Inductive error : Type :=
| Opaque (msg : string)
| ZeroAddresses (address : string)
    (* errors.Errorf("peer %q has zero addresses", address) *)
| Wrap (cause : error) (msg : string)
    (* errors.Wrap(cause, msg) *)
| ParseBoolSyntax (s : string).
    (* the *strconv.NumError of strconv.ParseBool *)

Inductive result (A : Type) : Type :=
| Ok (a : A)
| Fail (e : error).
Arguments Ok {A} a.
Arguments Fail {A} e.

(** ** context.Context

    Only cancellation is observable in the modelled code. *)
Record Context : Type := { cancelled : bool }.

Definition Background : Context := {| cancelled := false |}.
Definition Cancelled : Context := {| cancelled := true |}.

(** ** strings.Join and the one fmt.Sprintf shape of nodes.Connect *)

Fixpoint Join (elems : list string) (sep : string) : string :=
  match elems with
  | [] => EmptyString
  | a :: rest =>
      match rest with
      | [] => a
      | _ :: _ => a +:+ sep +:+ Join rest sep
      end
  end.

(** ** metadata.Task *)

Inductive TaskType : Type :=
| TaskConnect
| TaskOther (kind : string).

Record Task : Type := { Type_ : TaskType; Subject : string }.

(** ** Nodes

    [p2plab.Node] is an interface; a node is modelled by what its methods
    answer.  [PeerInfo] and [Run] are calls over the network. *)
Record PeerInfoT : Type := { ID : string; Addrs : list string }.

Record Node : Type := {
  node_ID : string;                        (* n.ID() *)
  node_Labels : list string;               (* n.Labels() *)
  node_Address : string;                   (* n.Metadata().Address *)
  PeerInfo : Context → result PeerInfoT;   (* n.PeerInfo(ctx) *)
  Run : Context → Task → option error      (* n.Run(ctx, task) *)
}.

(** ** golang.org/x/sync/errgroup

    A member is a function handed to [Group.Go].  It runs against the group's
    context and the memory it shares with the other members, and returns an
    error or nil.  [Wait] blocks until every member has returned and yields
    the first non-nil error; the group's context is cancelled when that error
    is recorded.  [members] lists the members in the order they complete. *)
Section Errgroup.
Context {S : Type}.

Definition member : Type := Context → S → S * option error.

Fixpoint run_members (gctx : Context) (first : option error)
    (members : list member) (s : S) : S * option error :=
  match members with
  | [] => (s, first)
  | f :: rest =>
      let '(s', r) := f gctx s in
      match r, first with
      | Some e, None => run_members Cancelled (Some e) rest s'
      | _, _ => run_members gctx first rest s'
      end
  end.

(** [g, gctx := errgroup.WithContext(ctx)], [g.Go] of every member, then
    [g.Wait()]. *)
Definition Wait (ctx : Context) (members : list member) (s : S)
    : S * option error :=
  run_members ctx None members s.
End Errgroup.
Arguments member : clear implicits.

(** ** Fan-out loops that close over their loop variables

    [for i, n := range ns { g.Go(func() error { ... i ... n ... }) }]

    The function literal refers to the loop's [i] and [n].  The code is
    written for the Go in which a [for] statement has one instance of its
    variables for all iterations.  When the loop body first copies them
    ([name, odef := name, odef] in [Plan]) every member has its own pair.
    Where it does not (both loops of [Connect]) the members share the loop's
    single pair, and read whatever iteration the loop has reached when they
    get to run.

    A [spawn] says, for one member, the iteration [born] that started it and
    the iteration [seen] whose values it reads; a schedule lists the spawns
    in completion order.  A member reads both variables from one iteration
    here; a real member of [Connect] reads [n] before its network call and
    [i] after it, and may find the loop further on in between. *)
Record spawn : Type := { born : nat; seen : nat }.

Definition schedule : Type := list spawn.

(** Every iteration starts one member, and a member cannot read an iteration
    earlier than its own or later than the last. *)
Definition schedule_ok (len : nat) (sc : schedule) : Prop :=
  born <$> sc ≡ₚ seq 0 len ∧ Forall (λ sp, born sp ≤ seen sp < len) sc.

(** The members read the iteration that started them: what a per-iteration
    copy of the loop variables gives. *)
Definition fresh (sc : schedule) : Prop :=
  Forall (λ sp, seen sp = born sp) sc.

(** The schedule in which every member starts only after the loop is over. *)
Definition after_loop (len : nat) : schedule :=
  (λ k, {| born := k; seen := pred len |}) <$> seq 0 len.

(** The schedule in which every member runs as soon as it is started. *)
Definition in_step (len : nat) : schedule :=
  (λ k, {| born := k; seen := k |}) <$> seq 0 len.

Definition fanout {S A : Type} (xs : list A) (body : nat → A → member S)
    (sc : schedule) : list (member S) :=
  omap (λ sp, body (seen sp) <$> xs !! seen sp) sc.

(** ** nodes.Connect *)

Definition dial (pi : PeerInfoT) : string :=
  (* fmt.Sprintf("%s/p2p/%s", peerInfo.Addrs[0], peerInfo.ID) *)
  default EmptyString (head (Addrs pi)) +:+ "/p2p/" +:+ ID pi.

(** A call [n.Run(ctx, task)], as the network sees it. *)
Record dispatch : Type := { to : string; with_ctx : Context; task : Task }.

Definition collect (i : nat) (n : Node) : member (list string) :=
  λ ctx peerAddrs,
    match PeerInfo n ctx with
    | Fail err => (peerAddrs, Some err)
    | Ok peerInfo =>
        if decide (length (Addrs peerInfo) = 0)
        then (peerAddrs, Some (ZeroAddresses (node_Address n)))
        else (<[i := dial peerInfo]> peerAddrs, None)
    end.

Definition connect (peerAddrs : list string) (_ : nat) (n : Node)
    : member (list dispatch) :=
  λ ctx sent,
    let t := {| Type_ := TaskConnect; Subject := Join peerAddrs "," |} in
    ((sent ++ [{| to := node_ID n; with_ctx := ctx; task := t |}])%list,
     Run n ctx t).

(** [collecting] and [connecting] schedule the two fan-outs.  The result is
    the error returned and the [Run] calls made, in the order made.

    Both [errgroup.WithContext(ctx)] calls assign the group's context to the
    parameter [ctx] itself, so the second group derives its context from the
    first group's, which the first [Wait] has cancelled on returning. *)
Definition Connect (collecting connecting : schedule) (ctx : Context)
    (nset : list Node) : list dispatch * option error :=
  let ns := nset in
  let peerAddrs := replicate (length ns) EmptyString in
  let '(peerAddrs, err) := Wait ctx (fanout ns collect collecting) peerAddrs in
  match err with
  | Some err => ([], Some err)
  | None =>
      let ctx := Cancelled in
      Wait ctx (fanout ns (connect peerAddrs) connecting) []
  end.

(** ** metadata: scenario definitions and plans *)

Record ObjectDefinition : Type := {
  odef_Type : string;
  Source : string;
  Layout : string;
  Chunker : string;
  RawLeaves : bool;
  HashFunc : string
}.

(** [ScenarioDefinition.Seed] and [.Benchmark] are ranged over with a string
    key that is parsed as a query and a string value that is parsed as an
    action: they are Go maps from query to action, as [Objects] is a map from
    name to definition. *)
Record ScenarioDefinition : Type := {
  sdef_Objects : gmap string ObjectDefinition;
  sdef_Seed : gmap string string;
  sdef_Benchmark : gmap string string
}.

(** A [cid.Cid], by its string form. *)
Definition Cid : Type := string.

Record ScenarioPlan : Type := {
  Objects : gmap string Cid;
  Seed : gmap string Task;
  Benchmark : gmap string Task
}.

Definition set_Objects (objects : gmap string Cid) (plan : ScenarioPlan)
    : ScenarioPlan :=
  {| Objects := objects; Seed := Seed plan; Benchmark := Benchmark plan |}.

Definition set_Seed (taskMap : gmap string Task) (plan : ScenarioPlan)
    : ScenarioPlan :=
  {| Objects := Objects plan; Seed := taskMap; Benchmark := Benchmark plan |}.

Definition set_Benchmark (taskMap : gmap string Task) (plan : ScenarioPlan)
    : ScenarioPlan :=
  {| Objects := Objects plan; Seed := Seed plan; Benchmark := taskMap |}.

(** ** p2plab.AddOption and scenarios.AddOptionsFromDefinition *)

Inductive AddOption : Type :=
| WithLayout (layout : string)
| WithChunker (chunker : string)
| WithRawLeaves (rawLeaves : bool)
| WithHashFunc (hashFunc : string).

Definition AddOptionsFromDefinition (odef : ObjectDefinition)
    : list AddOption :=
  let opts := [] in
  let opts := if decide (Layout odef ≠ EmptyString)
              then (opts ++ [WithLayout (Layout odef)])%list else opts in
  let opts := if decide (Chunker odef ≠ EmptyString)
              then (opts ++ [WithChunker (Chunker odef)])%list else opts in
  let opts := if RawLeaves odef
              then (opts ++ [WithRawLeaves true])%list else opts in
  let opts := if decide (HashFunc odef ≠ EmptyString)
              then (opts ++ [WithHashFunc (HashFunc odef)])%list else opts in
  opts.

(** ** Labeled sets

    [p2plab.Labeled] is an interface that [p2plab.Node] extends; a labeled
    value either is a node or is not. *)
Inductive Labeled : Type :=
| IsNode (n : Node)
| NotNode (id : string) (labels : list string).

Definition labeled_ID (l : Labeled) : string :=
  match l with
  | IsNode n => node_ID n
  | NotNode id _ => id
  end.

(** The type assertion [l.(p2plab.Node)]; [None] where it panics. *)
Definition as_Node (l : Labeled) : option Node :=
  match l with
  | IsNode n => Some n
  | NotNode _ _ => None
  end.

(** A function either returns or panics. *)
Inductive outcome (A : Type) : Type :=
| Returns (a : A)
| Panics.
Arguments Returns {A} a.
Arguments Panics {A}.

(** ** The collaborators of the planner

    The packages [transformers], [query] and [actions], the seeding peer and
    the labeled set are used through these operations only. *)
Record Peer : Type := { host_Addrs : list string; host_ID : string }.

Record Transformer : Type := {
  Transform : Context → Peer → string → list AddOption → result Cid
}.

Class Planning : Type := {
  Query : Type;
  Action : Type;
  ts_Get : string → result Transformer;               (* ts.Get(type) *)
  query_Parse : Context → string → result Query;   (* query.Parse(ctx, q) *)
  Match : Query → Context → list Labeled → result (list Labeled);
    (* qry.Match(ctx, lset), then mset.Slice() *)
  query_String : Query → string;                      (* qry.String() *)
  actions_Parse : gmap string Cid → string → result Action;
  Tasks : Action → Context → list Node → result (gmap string Task)
}.

(** ** scenarios.Plan *)

(** The orders [Plan] leaves to the runtime: the completion order of the
    object goroutines and the iteration orders of the two phase maps. *)
Record plan_schedule : Type := {
  objects_done : list (string * ObjectDefinition);
  seed_range : list (string * string);
  benchmark_range : list (string * string)
}.

Definition plan_schedule_ok (sdef : ScenarioDefinition) (sc : plan_schedule)
    : Prop :=
  objects_done sc ≡ₚ map_to_list (sdef_Objects sdef) ∧
  seed_range sc ≡ₚ map_to_list (sdef_Seed sdef) ∧
  benchmark_range sc ≡ₚ map_to_list (sdef_Benchmark sdef).

(** [x ← e or_return p; k]:
    [x, err := e; if err != nil { return plan, nil, err }]. *)
Notation "x ← e 'or_return' p ; k" :=
  (match e with
   | Ok x => k
   | Fail err => Returns (p, Fail err)
   end)
  (at level 20, e at level 100, p at level 9, k at level 200,
   only parsing).

Notation "x ← e 'or_panic' ; k" :=
  (match e with
   | Some x => k
   | None => Panics
   end)
  (at level 20, e at level 100, k at level 200, only parsing).

Section Planner.
Context `{Planning}.
Variables (ctx : Context) (peer : Peer) (lset : list Labeled).

(** The function handed to [objects.Go] for one object; [name] and [odef]
    are the copies made at the top of the loop body.  The shared memory is
    [plan.Objects], written under [mu]. *)
Definition materialize (entry : string * ObjectDefinition)
    : member (gmap string Cid) :=
  λ gctx objects,
    let '(name, odef) := entry in
    match ts_Get (odef_Type odef) with
    | Fail err => (objects, Some err)
    | Ok t =>
        let opts := AddOptionsFromDefinition odef in
        match Transform t gctx peer (Source odef) opts with
        | Fail err => (objects, Some err)
        | Ok c => (<[name := c]> objects, None)
        end
    end.

(** [for q, a := range sdef.Seed { ... }], over the entries still to be
    visited. *)
Fixpoint seed_loop (range : list (string * string)) (plan : ScenarioPlan)
    : outcome (ScenarioPlan * result unit) :=
  match range with
  | [] => Returns (plan, Ok tt)
  | (q, a) :: range =>
      qry ← query_Parse ctx q or_return plan;
      mset ← Match qry ctx lset or_return plan;
      let ids := labeled_ID <$> mset in
      action ← actions_Parse (Objects plan) a or_return plan;
      ns ← mapM as_Node mset or_panic;
      taskMap ← Tasks action ctx ns or_return plan;
      seed_loop range (set_Seed taskMap plan)
  end.

(** [for q, a := range sdef.Benchmark { ... }]. *)
Fixpoint benchmark_loop (range : list (string * string))
    (queries : gmap string (list string)) (plan : ScenarioPlan)
    : outcome (ScenarioPlan * result (gmap string (list string))) :=
  match range with
  | [] => Returns (plan, Ok queries)
  | (q, a) :: range =>
      qry ← query_Parse ctx q or_return plan;
      mset ← Match qry ctx lset or_return plan;
      let ids := labeled_ID <$> mset in
      let queries := <[query_String qry := ids]> queries in
      action ← actions_Parse (Objects plan) a or_return plan;
      ns ← mapM as_Node mset or_panic;
      taskMap ← Tasks action ctx ns or_return plan;
      benchmark_loop range queries (set_Benchmark taskMap plan)
  end.

(** The three results are [plan], [queries] ([None] for a nil map) and
    [err] ([None] for nil). *)
Definition Plan (sc : plan_schedule) (sdef : ScenarioDefinition)
    : outcome (ScenarioPlan * option (gmap string (list string)) *
               option error) :=
  let plan := {| Objects := ∅; Seed := ∅; Benchmark := ∅ |} in
  let '(objects, err) :=
    Wait ctx (materialize <$> objects_done sc) (Objects plan) in
  let plan := set_Objects objects plan in
  match err with
  | Some err => Returns (plan, None, Some err)
  | None =>
      match seed_loop (seed_range sc) plan with
      | Panics => Panics
      | Returns (plan, Fail err) => Returns (plan, None, Some err)
      | Returns (plan, Ok _) =>
          match benchmark_loop (benchmark_range sc) ∅ plan with
          | Panics => Panics
          | Returns (plan, Fail err) => Returns (plan, None, Some err)
          | Returns (plan, Ok queries) => Returns (plan, Some queries, None)
          end
      end
  end.
End Planner.

(** ** metadata: benchmarks, reports and the store *)

Inductive BenchmarkStatus : Type :=
| BenchmarkRunning
| BenchmarkDone.

Record Scenario : Type := {
  scenario_ID : string;
  scenario_Definition : ScenarioDefinition
}.

(** The write operations of the store, and the commit of a transaction. *)
Inductive store_op : Type :=
| OpCreateBenchmark
| OpCreateReport
| OpUpdateBenchmark
| OpCommit.

(** The collaborators of the orchestrator: the read side of the store, the
    node provisioner, the plan executor and the report aggregator, with the
    types that pass through the orchestrator untouched.  [store_fault] says
    which write operations of the store fail in the run at hand, and with
    what error. *)
Class Lab : Type := {
  Lab_Planning :: Planning;
  Cluster : Type;
  NodeMeta : Type;                                   (* metadata.Node *)
  ReportNode : Type;
  ReportAggregates : Type;
  GetScenario : Context → string → result Scenario;  (* s.db.GetScenario *)
  GetCluster : Context → string → result Cluster;    (* s.db.GetCluster *)
  ListNodes : Context → string → result (list NodeMeta);
  NewNode : NodeMeta → Node;           (* controlapi.NewNode(s.client, n) *)
  nodes_Update : Context → list Node → option error; (* nodes.Update *)
  scenarios_Run :
    Context → list Labeled → ScenarioPlan → list string →
    result (Z * Z * gmap string ReportNode * option string);
    (* scenarios.Run: Start, End, Report, and the trace id of Span when its
       context is a jaeger.SpanContext *)
  ComputeAggregates : gmap string ReportNode → ReportAggregates;
  store_fault : store_op → option error
}.

Record Request : Type := {
  form_no_reset : string;     (* r.FormValue("no-reset") *)
  form_scenario : string;     (* r.FormValue("scenario") *)
  form_cluster : string       (* r.FormValue("cluster") *)
}.

(** strconv.ParseBool *)
Definition ParseBool (str : string) : result bool :=
  if bool_decide (str ∈ ["1"; "t"; "T"; "true"; "TRUE"; "True"])
  then Ok true
  else if bool_decide (str ∈ ["0"; "f"; "F"; "false"; "FALSE"; "False"])
  then Ok false
  else Fail (ParseBoolSyntax str).

(** time.Time.Sub on instants in nanoseconds: the difference, saturated to
    the range of a time.Duration. *)
Definition Sub (t u : Z) : Z :=
  Z.max (- 2 ^ 63) (Z.min (2 ^ 63 - 1) (t - u)).

(** The orders left to the runtime in one benchmark run. *)
Record run_schedule : Type := {
  collecting : schedule;
  connecting : schedule;
  planning : plan_schedule
}.

Section Orchestrator.
Context `{Lab}.

(** metadata.Benchmark *)
Record BenchmarkRecord : Type := {
  benchmark_ID : string;
  Status : BenchmarkStatus;
  benchmark_Cluster : Cluster;
  benchmark_Scenario : Scenario;
  benchmark_Plan : ScenarioPlan;
  Labels : list string
}.

Definition set_Status (status : BenchmarkStatus) (b : BenchmarkRecord)
    : BenchmarkRecord :=
  {| benchmark_ID := benchmark_ID b; Status := status;
     benchmark_Cluster := benchmark_Cluster b;
     benchmark_Scenario := benchmark_Scenario b;
     benchmark_Plan := benchmark_Plan b; Labels := Labels b |}.

Record ReportSummary : Type := { TotalTime : Z; Trace : string }.

Record Report : Type := {
  Summary : ReportSummary;
  Aggregates : option ReportAggregates;    (* [None]: not yet computed *)
  Nodes : gmap string ReportNode;
  Queries : option (gmap string (list string))
}.

(** The benchmarks and reports the store holds, by benchmark id. *)
Record Store : Type := {
  benchmarks : gmap string BenchmarkRecord;
  reports : gmap string Report
}.

(** Modelled from the spec: [metadata.DB.CreateBenchmark], which is not
    among the modelled files.  It persists a new benchmark record under the
    record's id, or fails and writes nothing. *)
Definition CreateBenchmark (db : Store) (benchmark : BenchmarkRecord)
    : Store * result BenchmarkRecord :=
  match store_fault OpCreateBenchmark with
  | Some err => (db, Fail err)
  | None =>
      ({| benchmarks := <[benchmark_ID benchmark := benchmark]>
                          (benchmarks db);
          reports := reports db |}, Ok benchmark)
  end.

(** Modelled from the spec: [metadata.DB.CreateReport], which is not among
    the modelled files.  It persists the report of a benchmark, or fails
    and writes nothing. *)
Definition CreateReport (db : Store) (id : string) (report : Report)
    : Store * option error :=
  match store_fault OpCreateReport with
  | Some err => (db, Some err)
  | None =>
      ({| benchmarks := benchmarks db;
          reports := <[id := report]> (reports db) |}, None)
  end.

(** Modelled from the spec: [metadata.DB.UpdateBenchmark], which is not
    among the modelled files.  It persists the updated benchmark record, or
    fails and writes nothing. *)
Definition UpdateBenchmark (db : Store) (benchmark : BenchmarkRecord)
    : Store * result BenchmarkRecord :=
  match store_fault OpUpdateBenchmark with
  | Some err => (db, Fail err)
  | None =>
      ({| benchmarks := <[benchmark_ID benchmark := benchmark]>
                          (benchmarks db);
          reports := reports db |}, Ok benchmark)
  end.

(** The calls the handler makes to the store's write side and to the plan
    executor. *)
Inductive call : Type :=
| CallCreateBenchmark (benchmark : BenchmarkRecord)
| CallRun (lset : list Labeled) (plan : ScenarioPlan)
    (seederAddrs : list string)
| CallCreateReport (id : string) (report : Report)
| CallUpdateBenchmark (benchmark : BenchmarkRecord).

(** What a call of the handler leaves behind: the store, the [Run] calls
    made on the nodes by [nodes.Connect], the calls above in the order
    made, the resource-id header of the response and the error returned. *)
Record run_result : Type := {
  db_after : Store;
  sent : list dispatch;
  calls : list call;
  ResourceID : option string;
  returned : option error
}.

(** The function literal handed to [s.db.Update], with the calls it
    makes. *)
Definition persist (benchmark : BenchmarkRecord) (report : Report)
    (tx : Store) : Store * list call * option error :=
  let '(tx, err) := CreateReport tx (benchmark_ID benchmark) report in
  let log := [CallCreateReport (benchmark_ID benchmark) report] in
  match err with
  | Some err => (tx, log, Some (Wrap err "failed to create report"))
  | None =>
      let benchmark := set_Status BenchmarkDone benchmark in
      let log := (log ++ [CallUpdateBenchmark benchmark])%list in
      match UpdateBenchmark tx benchmark with
      | (tx, Fail err) =>
          (tx, log, Some (Wrap err "failed to update benchmark"))
      | (tx, Ok _) => (tx, log, None)
      end
  end.

(** Modelled from the spec: [metadata.DB.Update], which is not among the
    modelled files.  It runs [fn] in one atomic transaction: when [fn]
    returns nil and the commit goes through, all the writes of [fn] take
    effect; otherwise none does. *)
Definition Update (db : Store)
    (fn : Store → Store * list call * option error)
    : Store * list call * option error :=
  let '(tx, log, err) := fn db in
  match err with
  | Some err => (db, log, Some err)
  | None =>
      match store_fault OpCommit with
      | Some err => (db, log, Some err)
      | None => (tx, log, None)
      end
  end.

(** [now] is [time.Now().UnixNano()] and [JAEGER_UI] the value of that
    environment variable.  The labeled set is kept as the list of the nodes
    added to it, in the order added.  Logging is left out. *)
Definition postBenchmarksCreate (sc : run_schedule) (now : Z)
    (JAEGER_UI : string) (seeder : Peer) (ctx : Context) (r : Request)
    (db : Store) : outcome run_result :=
  let stop db sent log header err :=
    Returns {| db_after := db; sent := sent; calls := log;
               ResourceID := header; returned := err |} in
  match (if decide (form_no_reset r ≠ EmptyString)
         then ParseBool (form_no_reset r) else Ok false) with
  | Fail err => stop db [] [] None (Some err)
  | Ok noReset =>
  let sid := form_scenario r in
  match GetScenario ctx sid with
  | Fail err => stop db [] [] None (Some err)
  | Ok scenario =>
  let cid := form_cluster r in
  match GetCluster ctx cid with
  | Fail err => stop db [] [] None (Some err)
  | Ok cluster =>
  let bid := cid +:+ "-" +:+ sid +:+ "-" +:+ pretty now in
  let header := Some bid in
  match ListNodes ctx cid with
  | Fail err => stop db [] [] header (Some err)
  | Ok mns =>
  let ns := NewNode <$> mns in
  let lset := IsNode <$> ns in
  match (if noReset then ([], None)
         else match nodes_Update ctx ns with
              | Some err => ([], Some (Wrap err "failed to update cluster"))
              | None =>
                  match Connect (collecting sc) (connecting sc) ctx ns with
                  | (sent, Some err) =>
                      (sent, Some (Wrap err "failed to connect cluster"))
                  | (sent, None) => (sent, None)
                  end
              end) with
  | (sent, Some err) => stop db sent [] header (Some err)
  | (sent, None) =>
  match Plan ctx seeder lset (planning sc) (scenario_Definition scenario) with
  | Panics => Panics
  | Returns (_, _, Some err) =>
      stop db sent [] header
        (Some (Wrap err "failed to create scenario plan"))
  | Returns (plan, queries, None) =>
  let benchmark :=
    {| benchmark_ID := bid; Status := BenchmarkRunning;
       benchmark_Cluster := cluster; benchmark_Scenario := scenario;
       benchmark_Plan := plan; Labels := [bid; cid; sid] |} in
  let log := [CallCreateBenchmark benchmark] in
  match CreateBenchmark db benchmark with
  | (db, Fail err) => stop db sent log header (Some err)
  | (db, Ok benchmark) =>
  let seederAddrs :=
    (λ addr, addr +:+ "/p2p/" +:+ host_ID seeder) <$> host_Addrs seeder in
  let log := (log ++ [CallRun lset plan seederAddrs])%list in
  match scenarios_Run ctx lset plan seederAddrs with
  | Fail err =>
      stop db sent log header
        (Some (Wrap err "failed to run scenario plan"))
  | Ok (Start, End, nodeReports, traceID) =>
  let report :=
    {| Summary := {| TotalTime := Sub End Start; Trace := EmptyString |};
       Aggregates := None; Nodes := nodeReports; Queries := queries |} in
  let report :=
    {| Summary := Summary report;
       Aggregates := Some (ComputeAggregates (Nodes report));
       Nodes := Nodes report; Queries := Queries report |} in
  let report :=
    if decide (JAEGER_UI ≠ EmptyString)
    then match traceID with
         | Some id =>
             {| Summary := {| TotalTime := TotalTime (Summary report);
                              Trace := JAEGER_UI +:+ "/trace/" +:+ id |};
                Aggregates := Aggregates report; Nodes := Nodes report;
                Queries := Queries report |}
         | None => report
         end
    else report in
  let '(db, written, err) := Update db (persist benchmark report) in
  stop db sent (log ++ written)%list header err
  end end end end end end end end.
End Orchestrator.

(** ** A small laboratory

    Three nodes, a query engine that selects by one label, an action resolver
    that hands the action text to every selected node, and a store whose
    faults are chosen by the caller: the inputs on which the properties below
    are exercised. *)

Definition example_node (id label : string) (addrs : list string) : Node :=
  {| node_ID := id; node_Labels := [label]; node_Address := id +:+ ":7001";
     PeerInfo := λ _, Ok {| ID := "Qm" +:+ id; Addrs := addrs |};
     Run := λ _ _, None |}.

Definition nodeA : Node := example_node "A" "role=x" ["/ip4/10.0.0.1/tcp/4001"].
Definition nodeB : Node := example_node "B" "role=x" ["/ip4/10.0.0.2/tcp/4001"].
Definition nodeC : Node := example_node "C" "role=y" ["/ip4/10.0.0.3/tcp/4001"].

(** A node whose peer info lists no address. *)
Definition nodeZ : Node := example_node "Z" "role=x" [].

Definition labeled_Labels (l : Labeled) : list string :=
  match l with
  | IsNode n => node_Labels n
  | NotNode _ labels => labels
  end.

Definition example_transformer : Transformer :=
  {| Transform := λ gctx _ source _,
       if cancelled gctx then Fail (Opaque "context canceled")
       else if decide (source = EmptyString) then Fail (Opaque "no source")
       else Ok ("cid:" +:+ source) |}.

Definition example_task (a : string) : Task :=
  {| Type_ := TaskOther "action"; Subject := a |}.

Definition example_planning : Planning :=
  {| Query := string;
     Action := string;
     ts_Get := λ type,
       if decide (type = "oci") then Ok example_transformer
       else Fail (Opaque "unrecognized transformer type");
     query_Parse := λ _ q, Ok q;
     Match := λ qry _ lset,
       Ok (filter (λ l, qry ∈ labeled_Labels l) lset);
     query_String := λ qry, qry;
     actions_Parse := λ _ a, Ok a;
     Tasks := λ action _ ns,
       Ok (list_to_map ((λ n, (node_ID n, example_task action)) <$> ns)) |}.

Definition example_odef (source : string) : ObjectDefinition :=
  {| odef_Type := "oci"; Source := source; Layout := EmptyString;
     Chunker := "size-262144"; RawLeaves := true; HashFunc := EmptyString |}.

(** Two seed entries that select the disjoint node sets {A, B} and {C}. *)
Definition example_sdef : ScenarioDefinition :=
  {| sdef_Objects := {[ "data" := example_odef "docker.io/library/golang" ]};
     sdef_Seed := {[ "role=x" := "taskFoo"; "role=y" := "taskBar" ]};
     sdef_Benchmark := {[ "role=y" := "taskGet" ]} |}.

(** The same scenario with a second object that has no source. *)
Definition broken_sdef : ScenarioDefinition :=
  {| sdef_Objects := {[ "data" := example_odef "docker.io/library/golang";
                        "void" := example_odef EmptyString ]};
     sdef_Seed := sdef_Seed example_sdef;
     sdef_Benchmark := sdef_Benchmark example_sdef |}.

Definition example_lset : list Labeled := IsNode <$> [nodeA; nodeB; nodeC].

Definition example_peer : Peer :=
  {| host_Addrs := ["/ip4/10.0.0.9/tcp/4001"]; host_ID := "QmSeeder" |}.

(** The seed map visited as [role=x] then [role=y], and the other way. *)
Definition x_then_y : plan_schedule :=
  {| objects_done := map_to_list (sdef_Objects example_sdef);
     seed_range := [("role=x", "taskFoo"); ("role=y", "taskBar")];
     benchmark_range := map_to_list (sdef_Benchmark example_sdef) |}.

Definition y_then_x : plan_schedule :=
  {| objects_done := map_to_list (sdef_Objects example_sdef);
     seed_range := [("role=y", "taskBar"); ("role=x", "taskFoo")];
     benchmark_range := map_to_list (sdef_Benchmark example_sdef) |}.

Definition broken_schedule : plan_schedule :=
  {| objects_done := map_to_list (sdef_Objects broken_sdef);
     seed_range := seed_range x_then_y;
     benchmark_range := benchmark_range x_then_y |}.

Definition example_lab
    (execution : result (Z * Z * gmap string Z * option string))
    (fault : store_op → option error) : Lab :=
  {| Lab_Planning := example_planning;
     Cluster := string;
     NodeMeta := Node;
     ReportNode := Z;
     ReportAggregates := Z;
     GetScenario := λ _ sid,
       if decide (sid = "s1")
       then Ok {| scenario_ID := sid; scenario_Definition := example_sdef |}
       else Fail (Opaque "scenario not found");
     GetCluster := λ _ cid,
       if decide (cid = "c1") then Ok cid
       else Fail (Opaque "cluster not found");
     ListNodes := λ _ _, Ok [nodeA; nodeB; nodeC];
     NewNode := λ n, n;
     nodes_Update := λ _ _, None;
     scenarios_Run := λ _ _ _ _, execution;
     ComputeAggregates := λ nodes,
       map_fold (λ _ v acc, (v + acc)%Z) 0%Z nodes;
     store_fault := fault |}.

Definition example_request : Request :=
  {| form_no_reset := EmptyString; form_scenario := "s1";
     form_cluster := "c1" |}.

Definition example_run_schedule : run_schedule :=
  {| collecting := in_step 3; connecting := in_step 3; planning := x_then_y |}.

Definition no_fault : store_op → option error := λ _, None.


(** ** Derived notions used in the statements *)

(** What one object definition resolves to under the context [gctx]:
    [ts.Get] followed by [Transform]. *)
Definition resolve `{Planning} (gctx : Context) (peer : Peer)
    (odef : ObjectDefinition) : result Cid :=
  match ts_Get (odef_Type odef) with
  | Fail err => Fail err
  | Ok t => Transform t gctx peer (Source odef) (AddOptionsFromDefinition odef)
  end.

(** [taskMap] is what one pass of a phase loop computes for the entry
    [(q, a)] against the object table [objects]. *)
Definition entry_tasks `{Planning} (ctx : Context) (lset : list Labeled)
    (objects : gmap string Cid) (q a : string) (taskMap : gmap string Task)
    : Prop :=
  ∃ qry mset action ns,
    query_Parse ctx q = Ok qry ∧ Match qry ctx lset = Ok mset ∧
    actions_Parse objects a = Ok action ∧ mapM as_Node mset = Some ns ∧
    Tasks action ctx ns = Ok taskMap.

(** The audit entry of the query text [q]: canonical string and matched
    identifiers. *)
Definition audited `{Planning} (ctx : Context) (lset : list Labeled)
    (q : string) : option (string * list string) :=
  match query_Parse ctx q with
  | Fail _ => None
  | Ok qry =>
      match Match qry ctx lset with
      | Fail _ => None
      | Ok mset => Some (query_String qry, labeled_ID <$> mset)
      end
  end.

(** Writing a list of entries into a map, one after the other. *)
Definition record_all (entries : list (string * list string))
    (queries : gmap string (list string)) : gmap string (list string) :=
  foldl (λ m e, <[e.1 := e.2]> m) queries entries.

(** The dial string of a node, as [Connect] computes it under [ctx]. *)
Definition dial_of (ctx : Context) (n : Node) : string :=
  match PeerInfo n ctx with
  | Ok peerInfo => dial peerInfo
  | Fail _ => EmptyString
  end.

(** The node answers [PeerInfo] with at least one address. *)
Definition reachable (ctx : Context) (n : Node) : Prop :=
  ∃ peerInfo, PeerInfo n ctx = Ok peerInfo ∧ Addrs peerInfo ≠ [].

(** The connect task for the dial strings [peerAddrs], as sent to [n] by the
    second fan-out of [Connect]. *)
Definition connect_call (peerAddrs : list string) (n : Node) : dispatch :=
  {| to := node_ID n; with_ctx := Cancelled;
     task := {| Type_ := TaskConnect; Subject := Join peerAddrs "," |} |}.

(** The plan and the audit map of the example scenario when the seed map is
    visited as [role=x], [role=y]. *)
Definition example_plan : ScenarioPlan :=
  {| Objects := {[ "data" := "cid:docker.io/library/golang" ]};
     Seed := {[ "C" := example_task "taskBar" ]};
     Benchmark := {[ "C" := example_task "taskGet" ]} |}.

Definition example_queries : gmap string (list string) :=
  {[ "role=y" := ["C"] ]}.

Section Run.
Context `{Lab}.

(** The identifier the handler gives the benchmark of request [r] at the
    instant [now]. *)
Definition benchmark_id (now : Z) (r : Request) : string :=
  form_cluster r +:+ "-" +:+ form_scenario r +:+ "-" +:+ pretty now.

(** [benchmark] is the record the handler builds once planning has
    succeeded, [lset] the labeled set it planned over and [queries] the
    audit map of the plan. *)
Definition planned (sc : run_schedule) (now : Z) (seeder : Peer)
    (ctx : Context) (r : Request) (lset : list Labeled)
    (queries : option (gmap string (list string)))
    (benchmark : BenchmarkRecord) : Prop :=
  ∃ scenario cluster mns plan,
    GetScenario ctx (form_scenario r) = Ok scenario ∧
    GetCluster ctx (form_cluster r) = Ok cluster ∧
    ListNodes ctx (form_cluster r) = Ok mns ∧
    lset = IsNode <$> (NewNode <$> mns) ∧
    Plan ctx seeder lset (planning sc) (scenario_Definition scenario) =
      Returns (plan, queries, None) ∧
    benchmark =
      {| benchmark_ID := benchmark_id now r; Status := BenchmarkRunning;
         benchmark_Cluster := cluster; benchmark_Scenario := scenario;
         benchmark_Plan := plan;
         Labels := [benchmark_id now r; form_cluster r; form_scenario r] |}.

(** The store after [CreateBenchmark] has written [benchmark]. *)
Definition created (db : Store) (benchmark : BenchmarkRecord) : Store :=
  {| benchmarks := <[benchmark_ID benchmark := benchmark]> (benchmarks db);
     reports := reports db |}.

(** The store after the final transaction has committed. *)
Definition finished (db : Store) (benchmark : BenchmarkRecord)
    (report : Report) : Store :=
  {| benchmarks :=
       <[benchmark_ID benchmark := set_Status BenchmarkDone benchmark]>
         (benchmarks db);
     reports := <[benchmark_ID benchmark := report]> (reports db) |}.
End Run.

(** The store before the example run, and the execution the example executor
    reports. *)
Definition empty_store `{Lab} : Store :=
  {| benchmarks := ∅; reports := ∅ |}.

Definition example_execution : result (Z * Z * gmap string Z * option string) :=
  Ok (1000%Z, 4000%Z, {[ "C" := 512%Z ]}, Some "5af1").

Definition failed_execution : result (Z * Z * gmap string Z * option string) :=
  Fail (Opaque "node C: task failed").

(** The example request served at instant 42 against the empty store, with
    the executor answering [execution] and the store failing as [fault]
    says. *)
Definition run_example
    (execution : result (Z * Z * gmap string Z * option string))
    (fault : store_op → option error)
    : outcome (run_result (H := example_lab execution fault)) :=
  postBenchmarksCreate (H := example_lab execution fault) example_run_schedule
    42 "http://jaeger:16686" example_peer Background example_request
    (empty_store (H := example_lab execution fault)).

Definition seeder_addrs : list string :=
  ["/ip4/10.0.0.9/tcp/4001/p2p/QmSeeder"].

(** The record and the report of the example run. *)
Definition example_benchmark
    (execution : result (Z * Z * gmap string Z * option string))
    (fault : store_op → option error)
    : BenchmarkRecord (H := example_lab execution fault) :=
  {| benchmark_ID := "c1-s1-42"; Status := BenchmarkRunning;
     benchmark_Cluster := "c1" : Cluster (Lab := example_lab execution fault);
     benchmark_Scenario :=
       {| scenario_ID := "s1"; scenario_Definition := example_sdef |};
     benchmark_Plan := example_plan; Labels := ["c1-s1-42"; "c1"; "s1"] |}.

Definition example_report
    (execution : result (Z * Z * gmap string Z * option string))
    (fault : store_op → option error)
    : Report (H := example_lab execution fault) :=
  {| Summary := {| TotalTime := 3000;
                   Trace := "http://jaeger:16686/trace/5af1" |};
     Aggregates := Some (512%Z : ReportAggregates
                                   (Lab := example_lab execution fault));
     Nodes := ({[ "C" := 512%Z ]} : gmap string Z);
     Queries := Some example_queries |}.

(** The calls of a run that returned. *)
Definition calls_of `{Lab} (o : outcome run_result) : list call :=
  match o with
  | Returns res => calls res
  | Panics => []
  end.

(** Take apart the chain of early returns of a loop body. *)
Ltac body Hrun :=
  repeat match type of Hrun with
         | context [match ?e with _ => _ end] =>
             destruct e eqn:?; try discriminate Hrun
         end.

(** ** Derived notions for the further properties *)

(** One pass through the body of a phase loop for the entry [(q, a)], up to
    the task map it assigns: an error, a panic of the type assertion, or the
    task map. *)
Definition entry_outcome `{Planning} (ctx : Context) (lset : list Labeled)
    (objects : gmap string Cid) (q a : string)
    : outcome (result (gmap string Task)) :=
  match query_Parse ctx q with
  | Fail err => Returns (Fail err)
  | Ok qry =>
      match Match qry ctx lset with
      | Fail err => Returns (Fail err)
      | Ok mset =>
          match actions_Parse objects a with
          | Fail err => Returns (Fail err)
          | Ok action =>
              match mapM as_Node mset with
              | None => Panics
              | Some ns => Returns (Tasks action ctx ns)
              end
          end
      end
  end.

(** The object table of a scenario whose definitions all resolve. *)
Definition resolved `{Planning} (ctx : Context) (peer : Peer)
    (sdef : ScenarioDefinition) : gmap string Cid :=
  omap (λ odef, match resolve ctx peer odef with
                | Ok c => Some c
                | Fail _ => None
                end) (sdef_Objects sdef).

(** Every value a query selects from [lset] is a node. *)
Definition selects_nodes `{Planning} (ctx : Context) (lset : list Labeled)
    : Prop :=
  ∀ qry mset, Match qry ctx lset = Ok mset →
    Forall (λ l, is_Some (as_Node l)) mset.




(** The values the members of a fan-out read, in completion order. *)
Definition visited {A : Type} (xs : list A) (sc : schedule) : list A :=
  omap (λ sp, xs !! seen sp) sc.

(** A node that answers like [example_node] but whose [Run] gives up when
    its context is cancelled, as a call over the network does. *)
Definition polite_node (id label : string) (addrs : list string) : Node :=
  {| node_ID := id; node_Labels := [label]; node_Address := id +:+ ":7001";
     PeerInfo := λ _, Ok {| ID := "Qm" +:+ id; Addrs := addrs |};
     Run := λ ctx _,
       if cancelled ctx then Some (Opaque "context canceled") else None |}.


Section MoreRun.
Context `{Lab}.

(** The value of the no-reset flag as the handler reads it off the form. *)
Definition no_reset_of (r : Request) : result bool :=
  if decide (form_no_reset r ≠ EmptyString)
  then ParseBool (form_no_reset r) else Ok false.


End MoreRun.

(** The error and the dispatches of a run that returned. *)
Definition returned_of `{Lab} (o : outcome run_result)
    : option (option error) :=
  match o with
  | Returns res => Some (returned res)
  | Panics => None
  end.

Definition sent_of `{Lab} (o : outcome run_result) : option (list dispatch) :=
  match o with
  | Returns res => Some (sent res)
  | Panics => None
  end.


(** The example laboratory with two nodes whose [Run] gives up on a cancelled
    context. *)
Definition polite_lab : Lab :=
  {| Lab_Planning := example_planning;
     Cluster := string;
     NodeMeta := Node;
     ReportNode := Z;
     ReportAggregates := Z;
     GetScenario := λ _ sid,
       if decide (sid = "s1")
       then Ok {| scenario_ID := sid; scenario_Definition := example_sdef |}
       else Fail (Opaque "scenario not found");
     GetCluster := λ _ cid,
       if decide (cid = "c1") then Ok cid
       else Fail (Opaque "cluster not found");
     ListNodes := λ _ _,
       Ok [polite_node "A" "role=x" ["/ip4/10.0.0.1/tcp/4001"];
           polite_node "B" "role=y" ["/ip4/10.0.0.2/tcp/4001"]];
     NewNode := λ n, n;
     nodes_Update := λ _ _, None;
     scenarios_Run := λ _ _ _ _, example_execution;
     ComputeAggregates := λ nodes,
       map_fold (λ _ v acc, (v + acc)%Z) 0%Z nodes;
     store_fault := no_fault |}.

Definition polite_run_schedule : run_schedule :=
  {| collecting := in_step 2; connecting := in_step 2; planning := x_then_y |}.

(** The request [r] served by the laboratory [lab] at instant 42 against the
    empty store. *)
Definition run_request (lab : Lab) (sc : run_schedule) (r : Request)
    : outcome (run_result (H := lab)) :=
  postBenchmarksCreate (H := lab) sc 42 "http://jaeger:16686" example_peer
    Background r (empty_store (H := lab)).

(** ** strings.Split and deleteBenchmarks *)

(** [strings.Split(s, sep)] for a separator of one byte, which is how the
    router calls it: the pieces of [s] between the occurrences of [sep], in
    order. *)
Fixpoint Split (s : string) (sep : ascii) : list string :=
  match s with
  | EmptyString => [EmptyString]
  | String c rest =>
      if decide (c = sep) then EmptyString :: Split rest sep
      else match Split rest sep with
           | [] => [String c EmptyString]
           | a :: elems => String c a :: elems
           end
  end.

(** [DeleteBenchmarks] is the store's variadic delete and [form_ids] the
    value of the form field [ids]. *)
Definition deleteBenchmarks
    (DeleteBenchmarks : Context → list string → option error)
    (ctx : Context) (form_ids : string) : option error :=
  let ids := Split form_ids ","%char in
  match DeleteBenchmarks ctx ids with
  | Some err => Some err
  | None => None
  end.

(** The number of occurrences of the byte [c] in [s]. *)
Fixpoint occurrences (c : ascii) (s : string) : nat :=
  match s with
  | EmptyString => 0
  | String c' rest => (if decide (c' = c) then 1 else 0) + occurrences c rest
  end.

(** ** Properties of AddOptionsFromDefinition *)

(** C8: an option is passed to the transform exactly when its field is set in
    the object definition (a non-empty string; [true] for the raw-leaves
    flag), it then carries the value of the field, and the options come in
    the order layout, chunker, raw-leaves, hash function, each at most once.
    An unset field contributes nothing. *)
Theorem AddOptionsFromDefinition_only_explicit (odef : ObjectDefinition) :
  (∀ opt : AddOption,
     opt ∈ AddOptionsFromDefinition odef ↔
       (opt = WithLayout (Layout odef) ∧ Layout odef ≠ EmptyString) ∨
       (opt = WithChunker (Chunker odef) ∧ Chunker odef ≠ EmptyString) ∨
       (opt = WithRawLeaves true ∧ RawLeaves odef = true) ∨
       (opt = WithHashFunc (HashFunc odef) ∧ HashFunc odef ≠ EmptyString)) ∧
  sublist (AddOptionsFromDefinition odef)
    [WithLayout (Layout odef); WithChunker (Chunker odef); WithRawLeaves true;
     WithHashFunc (HashFunc odef)].
Proof.
  unfold AddOptionsFromDefinition.
  destruct odef as [ty src layout chunker raw hash]; simpl.
  split.
  - intros opt.
    repeat case_decide; destruct raw; simpl;
      rewrite ?elem_of_cons, ?elem_of_nil; intuition congruence.
  - repeat case_decide; destruct raw; simpl;
      repeat first [ apply sublist_skip | apply sublist_cons
                   | apply sublist_nil ].
Qed.

(** ** Properties of errgroup *)

Section ErrgroupFacts.
Context {S : Type}.
Implicit Types (members : list (member S)) (s : S).

(** Once an error is recorded, it is the one [Wait] returns. *)
Lemma run_members_first gctx e members s :
  (run_members gctx (Some e) members s).2 = Some e.
Proof.
  revert gctx s. induction members as [|f members IH]; intros gctx s; [done|].
  simpl. destruct (f gctx s) as [s' [e'|]]; apply IH.
Qed.

Lemma run_members_nil_first gctx first members s s' :
  run_members gctx first members s = (s', None) → first = None.
Proof.
  destruct first as [e|]; [|done].
  intros Hrun. pose proof (run_members_first gctx e members s) as Hfirst.
  rewrite Hrun in Hfirst. done.
Qed.

(** A member that fails whatever it finds in the shared memory makes [Wait]
    return an error. *)
Lemma Wait_fails ctx members s f :
  f ∈ members → (∀ s0, is_Some (f ctx s0).2) →
  is_Some (Wait ctx members s).2.
Proof.
  unfold Wait. intros Hin Hfails. revert s.
  induction members as [|f0 members IH]; intros s.
  { by apply elem_of_nil in Hin. }
  simpl. destruct (f0 ctx s) as [s' [e|]] eqn:Hf0.
  - rewrite run_members_first. by eexists.
  - apply elem_of_cons in Hin as [->|Hin]; [|by apply IH].
    destruct (Hfails s) as [e He]. rewrite Hf0 in He. discriminate He.
Qed.
End ErrgroupFacts.

(** ** Properties of the planner's phases *)

Section PlannerFacts.
Context `{Planning}.
Variables (ctx : Context) (peer : Peer) (lset : list Labeled).

Lemma materialize_resolve name odef gctx objects :
  materialize peer (name, odef) gctx objects =
    match resolve gctx peer odef with
    | Ok c => (<[name := c]> objects, None)
    | Fail err => (objects, Some err)
    end.
Proof.
  unfold materialize, resolve.
  destruct (ts_Get (odef_Type odef)) as [t|err]; [|done].
  by destruct (Transform t gctx peer _ _).
Qed.

(** When no member fails, every definition has been resolved and written
    under its name, and nothing else has been written. *)
Lemma run_materialize_ok l gctx objects objects' :
  run_members gctx None (materialize peer <$> l) objects = (objects', None) →
  NoDup l.*1 →
  (∀ name odef, (name, odef) ∈ l →
     ∃ c, resolve gctx peer odef = Ok c ∧ objects' !! name = Some c) ∧
  (∀ k, k ∉ l.*1 → objects' !! k = objects !! k).
Proof.
  revert objects. induction l as [|[name odef] l IH]; intros objects Hrun Hdup.
  { simpl in Hrun. injection Hrun as <-. split; [|done].
    intros ?? Hin. by apply elem_of_nil in Hin. }
  rewrite fmap_cons in Hrun. cbn [run_members] in Hrun.
  rewrite materialize_resolve in Hrun.
  destruct (resolve gctx peer odef) as [c|err] eqn:Hres.
  2:{ by apply run_members_nil_first in Hrun. }
  rewrite fmap_cons in Hdup. simpl in Hdup.
  apply NoDup_cons in Hdup as [Hfresh Hdup].
  destruct (IH _ Hrun Hdup) as [Hin Hout]. split.
  - intros name' odef' [[= -> ->]|Hl]%elem_of_cons.
    + exists c. split; [done|]. rewrite (Hout _ Hfresh). apply lookup_insert_eq.
    + by apply Hin.
  - rewrite fmap_cons. simpl.
    intros k [Hne Hk]%not_elem_of_cons. rewrite (Hout _ Hk).
    by apply lookup_insert_ne.
Qed.

(** When some definition does not resolve, [Wait] returns the error of such
    a definition. *)
Lemma run_materialize_fail l gctx objects :
  (∃ name odef e, (name, odef) ∈ l ∧ resolve gctx peer odef = Fail e) →
  ∃ name odef err,
    (name, odef) ∈ l ∧ resolve gctx peer odef = Fail err ∧
    (run_members gctx None (materialize peer <$> l) objects).2 = Some err.
Proof.
  revert objects. induction l as [|[name odef] l IH];
    intros objects (name0 & odef0 & e & Hin & Hfail).
  { by apply elem_of_nil in Hin. }
  rewrite fmap_cons. cbn [run_members]. rewrite materialize_resolve.
  destruct (resolve gctx peer odef) as [c|err] eqn:Hres.
  - apply elem_of_cons in Hin as [[= -> ->]|Hin]; [congruence|].
    destruct (IH (<[name := c]> objects)) as (n & o & err & ? & ? & ?);
      [by eauto|].
    exists n, o, err. split_and!; [by apply elem_of_cons; right|done|done].
  - exists name, odef, err. split_and!; [by apply elem_of_cons; left|done|].
    apply run_members_first.
Qed.

(** The seed loop, when it runs to its end: every entry was computed, in the
    order visited, and the plan holds the task map of the last one. *)
Lemma seed_loop_ok range plan plan' :
  seed_loop ctx lset range plan = Returns (plan', Ok tt) →
  Objects plan' = Objects plan ∧ Benchmark plan' = Benchmark plan ∧
  (∀ q a, (q, a) ∈ range →
     ∃ taskMap, entry_tasks ctx lset (Objects plan) q a taskMap) ∧
  match last range with
  | None => Seed plan' = Seed plan
  | Some (q, a) => entry_tasks ctx lset (Objects plan) q a (Seed plan')
  end.
Proof.
  revert plan. induction range as [|[q a] range IH]; intros plan Hrun.
  { injection Hrun as <-. split_and!; [done|done| |done].
    intros ?? Hin. by apply elem_of_nil in Hin. }
  cbn [seed_loop] in Hrun. body Hrun.
  destruct (IH _ Hrun) as (Hobjects & Hbench & Hall & Hlast).
  simpl in Hobjects, Hbench, Hall.
  match type of Hrun with
  | seed_loop _ _ _ (set_Seed ?taskMap _) = _ =>
      assert (entry_tasks ctx lset (Objects plan) q a taskMap) as Hentry
        by (by eexists _, _, _, _)
  end.
  split_and!; [done|done| |].
  - intros q' a' [[= -> ->]|Hin]%elem_of_cons; [by eexists|by apply Hall].
  - destruct range as [|qa range].
    { injection Hrun as <-. exact Hentry. }
    change (last ((q, a) :: qa :: range)) with (last (qa :: range)).
    destruct (last (qa :: range)) as [[q' a']|] eqn:Hl; [exact Hlast|].
    by apply last_None in Hl.
Qed.

Lemma seed_loop_Objects range plan plan' r :
  seed_loop ctx lset range plan = Returns (plan', r) →
  Objects plan' = Objects plan ∧ Benchmark plan' = Benchmark plan.
Proof.
  revert plan. induction range as [|[q a] range IH]; intros plan Hrun.
  { by injection Hrun as <- <-. }
  cbn [seed_loop] in Hrun. body Hrun; try (by injection Hrun as <- <-).
  by destruct (IH _ Hrun).
Qed.

(** The benchmark loop, when it runs to its end: the audit entry of every
    query visited has been written, in the order visited. *)
Lemma benchmark_loop_ok range queries plan plan' queries' :
  benchmark_loop ctx lset range queries plan = Returns (plan', Ok queries') →
  Objects plan' = Objects plan ∧ Seed plan' = Seed plan ∧
  ∃ entries,
    Forall2 (λ qa e, audited ctx lset qa.1 = Some e) range entries ∧
    queries' = record_all entries queries.
Proof.
  revert queries plan.
  induction range as [|[q a] range IH]; intros queries plan Hrun.
  { injection Hrun as <- <-. split_and!; [done|done|]. by exists []. }
  cbn [benchmark_loop] in Hrun. body Hrun.
  destruct (IH _ _ Hrun) as (Hobjects & Hseed & entries & Hentries & ->).
  split_and!; [done|done|].
  match type of Hrun with
  | benchmark_loop _ _ _ (<[?k := ?ids]> _) _ = _ =>
      exists ((k, ids) :: entries)
  end.
  split; [|done].
  constructor; [|done]. unfold audited. simpl.
  by repeat match goal with Heq : _ = Ok _ |- _ => rewrite Heq; clear Heq end.
Qed.

(** The three ways [Plan] can return, by the phase that ended it. *)
Lemma Plan_returns sc sdef plan queries err :
  Plan ctx peer lset sc sdef = Returns (plan, queries, err) →
  ∃ objects err0,
    Wait ctx (materialize peer <$> objects_done sc) ∅ = (objects, err0) ∧
    let plan0 := {| Objects := objects; Seed := ∅; Benchmark := ∅ |} in
    (err0 = err ∧ is_Some err ∧ queries = None ∧ plan = plan0) ∨
    (err0 = None ∧ is_Some err ∧ queries = None ∧
     ∃ e, err = Some e ∧
          seed_loop ctx lset (seed_range sc) plan0 = Returns (plan, Fail e)) ∨
    (err0 = None ∧ ∃ plan1,
       seed_loop ctx lset (seed_range sc) plan0 = Returns (plan1, Ok tt) ∧
       ((∃ e, err = Some e ∧ queries = None ∧
              benchmark_loop ctx lset (benchmark_range sc) ∅ plan1 =
                Returns (plan, Fail e)) ∨
        (∃ qs, err = None ∧ queries = Some qs ∧
               benchmark_loop ctx lset (benchmark_range sc) ∅ plan1 =
                 Returns (plan, Ok qs)))).
Proof.
  unfold Plan. simpl.
  destruct (Wait ctx _ ∅) as [objects err0] eqn:Hwait.
  intros Hplan. exists objects, err0. split; [done|]. simpl.
  destruct err0 as [e0|].
  { injection Hplan as <- <- <-. left. by eauto. }
  right. unfold set_Objects in Hplan. simpl in Hplan.
  destruct (seed_loop _ _ _ _) as [[plan1 [[]|e1]]|]; [| |done].
  2:{ injection Hplan as <- <- <-. left. split_and!; eauto. }
  right. split; [done|]. exists plan1. split; [done|].
  destruct (benchmark_loop _ _ _ _ _) as [[plan2 [qs|e2]]|]; [| |done].
  - injection Hplan as <- <- <-. right. by eauto.
  - injection Hplan as <- <- <-. left. by eauto.
Qed.
End PlannerFacts.

(** ** Writing audit entries *)

Section RecordAll.
Implicit Types (entries : list (string * list string))
               (queries : gmap string (list string)).

Lemma NoDup_fst_agree {A B : Type} (l : list (A * B)) k v1 v2 :
  NoDup l.*1 → (k, v1) ∈ l → (k, v2) ∈ l → v1 = v2.
Proof.
  induction l as [|[k0 v0] l IH]; intros Hdup Hin1 Hin2.
  { by apply elem_of_nil in Hin1. }
  rewrite fmap_cons in Hdup. simpl in Hdup.
  apply NoDup_cons in Hdup as [Hfresh Hdup].
  assert (∀ v, (k0, v) ∈ l → False) as Habsurd.
  { intros v Hv. apply Hfresh, list_elem_of_fmap. by exists (k0, v). }
  apply elem_of_cons in Hin1 as [[= -> ->]|Hin1];
    apply elem_of_cons in Hin2 as [[= ->]|Hin2]; subst;
    [done|by destruct (Habsurd v2)|by destruct (Habsurd v1)|by apply IH].
Qed.

Lemma record_all_cons e entries queries :
  record_all (e :: entries) queries =
    record_all entries (<[e.1 := e.2]> queries).
Proof. done. Qed.

Lemma record_all_lookup_notin entries queries k :
  k ∉ entries.*1 → record_all entries queries !! k = queries !! k.
Proof.
  revert queries.
  induction entries as [|[k0 ids0] entries IH]; intros queries; [done|].
  rewrite fmap_cons, record_all_cons. simpl.
  intros [Hne Hk]%not_elem_of_cons. rewrite (IH _ Hk).
  by apply lookup_insert_ne.
Qed.

Lemma record_all_lookup_in entries queries k :
  k ∈ entries.*1 →
  ∃ ids, (k, ids) ∈ entries ∧ record_all entries queries !! k = Some ids.
Proof.
  revert queries.
  induction entries as [|[k0 ids0] entries IH]; intros queries Hin.
  { by apply elem_of_nil in Hin. }
  rewrite record_all_cons. simpl.
  destruct (decide (k ∈ entries.*1)) as [Hlater|Hlast].
  - destruct (IH (<[k0 := ids0]> queries) Hlater) as (ids & ? & ?).
    exists ids. split; [by apply elem_of_cons; right|done].
  - rewrite fmap_cons in Hin. apply elem_of_cons in Hin as [->|?]; [|done].
    exists ids0. split; [by apply elem_of_cons; left|].
    rewrite (record_all_lookup_notin _ _ _ Hlast). apply lookup_insert_eq.
Qed.

Lemma record_all_lookup_Some entries queries k ids :
  record_all entries queries !! k = Some ids →
  (k, ids) ∈ entries ∨ ((k ∉ entries.*1) ∧ queries !! k = Some ids).
Proof.
  intros Hk. destruct (decide (k ∈ entries.*1)) as [Hin|Hout].
  - destruct (record_all_lookup_in entries queries k Hin) as (ids' & ? & Hk').
    left. congruence.
  - right. split; [done|]. by rewrite record_all_lookup_notin in Hk.
Qed.

Lemma record_all_lookup_NoDup entries queries k ids :
  NoDup entries.*1 → (k, ids) ∈ entries →
  record_all entries queries !! k = Some ids.
Proof.
  intros Hdup Hin.
  destruct (record_all_lookup_in entries queries k) as (ids' & Hin' & ->).
  { apply list_elem_of_fmap. by exists (k, ids). }
  f_equal. by eapply NoDup_fst_agree.
Qed.
End RecordAll.

(** ** Properties of Plan *)

(** C10: whenever [Plan] returns a non-nil error, from whichever phase, the
    audit map it returns is nil; a non-nil audit map only ever comes with a
    nil error. *)
Theorem Plan_error_nil_queries `{Planning} (ctx : Context) (peer : Peer)
    (lset : list Labeled) (sc : plan_schedule) (sdef : ScenarioDefinition)
    (plan : ScenarioPlan) (queries : option (gmap string (list string)))
    (err : option error) :
  Plan ctx peer lset sc sdef = Returns (plan, queries, err) →
  (is_Some err → queries = None) ∧ (is_Some queries → err = None).
Proof.
  intros Hplan. apply Plan_returns in Hplan as (objects & err0 & _ & Hcases).
  simpl in Hcases.
  destruct Hcases
    as [(_ & Herr & -> & _)|[(_ & Herr & -> & _)|(_ & plan1 & _ & Hbench)]].
  - split; [done|]. by intros [??].
  - split; [done|]. by intros [??].
  - destruct Hbench as [(e & -> & -> & _)|(qs & -> & -> & _)].
    + split; [done|]. by intros [??].
    + split; [|done]. by intros [??].
Qed.

(** C5: when planning succeeds, the plan's [Objects] map has exactly the
    names of the object definitions, each bound to the content id its
    definition resolves to, so as many entries as there are definitions.
    When a definition does not resolve, planning fails with the error of a
    definition that does not resolve (with that very error when there is only
    one such definition), it returns no audit map, and nothing has been
    planned from the objects: the seed and benchmark maps are still empty. *)
Theorem Plan_objects_all_or_none `{Planning} (ctx : Context) (peer : Peer)
    (lset : list Labeled) (sc : plan_schedule) (sdef : ScenarioDefinition) :
  plan_schedule_ok sdef sc →
  (∀ plan queries,
     Plan ctx peer lset sc sdef = Returns (plan, Some queries, None) →
     dom (Objects plan) = dom (sdef_Objects sdef) ∧
     size (Objects plan) = size (sdef_Objects sdef) ∧
     ∀ name odef, sdef_Objects sdef !! name = Some odef →
       ∃ c, resolve ctx peer odef = Ok c ∧ Objects plan !! name = Some c) ∧
  (∀ name odef e,
     sdef_Objects sdef !! name = Some odef →
     resolve ctx peer odef = Fail e →
     ∃ plan name' odef' err,
       Plan ctx peer lset sc sdef = Returns (plan, None, Some err) ∧
       sdef_Objects sdef !! name' = Some odef' ∧
       resolve ctx peer odef' = Fail err ∧
       Seed plan = ∅ ∧ Benchmark plan = ∅ ∧
       ((∀ n o e', sdef_Objects sdef !! n = Some o →
                   resolve ctx peer o = Fail e' → n = name) → err = e)).
Proof.
  intros (Hobjects & _ & _).
  assert (∀ name odef,
            (name, odef) ∈ objects_done sc ↔
            sdef_Objects sdef !! name = Some odef) as Hin.
  { intros name odef. rewrite Hobjects. apply elem_of_map_to_list. }
  assert (NoDup (objects_done sc).*1) as Hdup.
  { rewrite Hobjects. apply NoDup_fst_map_to_list. }
  split.
  - intros plan queries Hplan.
    apply Plan_returns in Hplan as (objects & err0 & Hwait & Hcases).
    simpl in Hcases.
    destruct Hcases as [(_ & _ & [=] & _)|[(_ & _ & [=] & _)|Hok]].
    destruct Hok as (-> & plan1 & Hseed & Hbench).
    destruct Hbench as [(e & [=] & _)|(qs & _ & _ & Hbench)].
    apply seed_loop_Objects in Hseed as [Hseed _].
    apply benchmark_loop_ok in Hbench as (Hbench & _). simpl in Hseed.
    rewrite Hbench, Hseed.
    destruct (run_materialize_ok peer _ _ _ _ Hwait Hdup) as [Hall Hrest].
    assert (∀ name odef, sdef_Objects sdef !! name = Some odef →
              ∃ c, resolve ctx peer odef = Ok c ∧ objects !! name = Some c)
      as Hresolved.
    { intros name odef Hdef. by apply Hall, Hin. }
    assert (dom objects = dom (sdef_Objects sdef)) as Hdom.
    { apply set_eq. intros k. rewrite !elem_of_dom. split.
      - intros [c Hc].
        destruct (decide (k ∈ (objects_done sc).*1)) as [Hk|Hk].
        + apply list_elem_of_fmap in Hk as ([k' odef] & -> & Hk).
          exists odef. by apply Hin.
        + rewrite (Hrest _ Hk), lookup_empty in Hc. done.
      - intros [odef Hdef].
        destruct (Hresolved _ _ Hdef) as (c & _ & Hc). by exists c. }
    split_and!; [done| |done].
    by rewrite <-!size_dom, Hdom.
  - intros name odef e Hdef Hfail.
    destruct (run_materialize_fail peer (objects_done sc) ctx ∅)
      as (name' & odef' & err & Hin' & Hfail' & Hwait).
    { exists name, odef, e. split; [by apply Hin|done]. }
    unfold Plan, Wait. simpl.
    destruct (run_members ctx None _ ∅) as [objects err0]. simpl in Hwait.
    subst err0. eexists _, name', odef', err.
    split_and!; [done|by apply Hin|done|done|done|].
    intros Honly. apply Hin in Hin'.
    pose proof (Honly _ _ _ Hin' Hfail') as ->. congruence.
Qed.

(** The seed phase of a successful [Plan], for any collaborators. *)
Lemma Plan_seed_last `{Planning} (ctx : Context) (peer : Peer)
    (lset : list Labeled) (sc : plan_schedule) (sdef : ScenarioDefinition)
    (plan : ScenarioPlan) (queries : gmap string (list string)) :
  plan_schedule_ok sdef sc →
  Plan ctx peer lset sc sdef = Returns (plan, Some queries, None) →
  (∀ q a, sdef_Seed sdef !! q = Some a →
     ∃ taskMap, entry_tasks ctx lset (Objects plan) q a taskMap) ∧
  match last (seed_range sc) with
  | None => sdef_Seed sdef = ∅ ∧ Seed plan = ∅
  | Some (q, a) =>
      sdef_Seed sdef !! q = Some a ∧
      entry_tasks ctx lset (Objects plan) q a (Seed plan)
  end.
Proof.
  intros (_ & Hrange & _) Hplan.
  apply Plan_returns in Hplan as (objects & err0 & _ & Hcases).
  simpl in Hcases.
  destruct Hcases as [(_ & _ & [=] & _)|[(_ & _ & [=] & _)|Hok]].
  destruct Hok as (_ & plan1 & Hseed & Hbench).
  destruct Hbench as [(e & [=] & _)|(qs & _ & _ & Hbench)].
  apply benchmark_loop_ok in Hbench as (Hobjects & Hkept & _).
  apply seed_loop_ok in Hseed as (Hobjects1 & _ & Hall & Hlast).
  simpl in Hobjects1, Hall, Hlast.
  rewrite Hobjects, Hobjects1, Hkept. split.
  - intros q a Hqa. apply Hall. rewrite Hrange. by apply elem_of_map_to_list.
  - destruct (last (seed_range sc)) as [[q a]|] eqn:Hl.
    + split; [|done]. apply elem_of_map_to_list. rewrite <-Hrange.
      by apply last_Some_elem_of.
    + split; [|done]. apply last_None in Hl. rewrite Hl in Hrange.
      apply map_to_list_empty_iff. symmetry. by apply Permutation_nil_l.
Qed.

Lemma two_orders {A : Type} (l : list A) (x y : A) :
  l ≡ₚ [x; y] → l = [x; y] ∨ l = [y; x].
Proof.
  intros Hperm. pose proof (Permutation_length Hperm) as Hlen.
  destruct l as [|a [|b [|c l]]]; try discriminate Hlen.
  apply Permutation_length_2 in Hperm as [[-> ->]|[-> ->]]; auto.
Qed.

Lemma x_then_y_ok : plan_schedule_ok example_sdef x_then_y.
Proof.
  split_and!; [reflexivity| |reflexivity].
  simpl. vm_compute (map_to_list _). apply perm_swap.
Defined.

Lemma y_then_x_ok : plan_schedule_ok example_sdef y_then_x.
Proof.
  split_and!; [reflexivity| |reflexivity].
  simpl. vm_compute (map_to_list _). reflexivity.
Defined.

Lemma broken_schedule_ok : plan_schedule_ok broken_sdef broken_schedule.
Proof.
  split_and!; [reflexivity| |reflexivity].
  simpl. vm_compute (map_to_list _). apply perm_swap.
Defined.

(** The example scenario plans to [example_plan] when [role=y] is visited
    last. *)
Lemma Plan_example :
  Plan (H := example_planning) Background example_peer example_lset x_then_y
    example_sdef = Returns (example_plan, Some example_queries, None).
Proof. vm_compute. exact eq_refl. Defined.

(** The example scenario under every order in which its maps can be
    visited. *)
Lemma example_seed_either (sc : plan_schedule) :
  plan_schedule_ok example_sdef sc →
  ∃ plan queries,
    Plan (H := example_planning) Background example_peer example_lset sc
      example_sdef = Returns (plan, Some queries, None) ∧
    ((last (seed_range sc) = Some ("role=y", "taskBar") ∧
      Seed plan = {[ "C" := example_task "taskBar" ]}) ∨
     (last (seed_range sc) = Some ("role=x", "taskFoo") ∧
      Seed plan = {[ "A" := example_task "taskFoo";
                     "B" := example_task "taskFoo" ]})).
Proof.
  destruct sc as [done_ seeds benchs]. intros (Hobjects & Hseed & Hbench).
  simpl in Hobjects, Hseed, Hbench.
  vm_compute map_to_list in Hobjects, Hseed, Hbench.
  apply Permutation_singleton_r in Hobjects as ->.
  apply Permutation_singleton_r in Hbench as ->.
  apply two_orders in Hseed as [-> | ->].
  - eexists _, _. split; [vm_compute; reflexivity|]. right. split; reflexivity.
  - eexists _, _. split; [vm_compute; reflexivity|]. left. split; reflexivity.
Qed.

(** C1 (as amended): seed planning visits the entries of the seed map one at
    a time, in the order the map iteration yields them, which is any order of
    the entries; it computes the task map of every entry and leaves in the
    plan the task map of the entry visited last (the empty map when there is
    no entry).  For the two entries [role=x → taskFoo] and
    [role=y → taskBar] over nodes A, B ([role=x]) and C ([role=y]), planning
    succeeds under every order and the Seed map is {C: taskBar} when
    [role=y] comes last and {A: taskFoo, B: taskFoo} when [role=x] comes
    last; it is never the union. *)
Theorem Plan_seed_last_visited_survives :
  (∀ (P : Planning) (ctx : Context) (peer : Peer) (lset : list Labeled)
     (sc : plan_schedule) (sdef : ScenarioDefinition) (plan : ScenarioPlan)
     (queries : gmap string (list string)),
     plan_schedule_ok sdef sc →
     Plan ctx peer lset sc sdef = Returns (plan, Some queries, None) →
     (∀ q a, sdef_Seed sdef !! q = Some a →
        ∃ taskMap, entry_tasks ctx lset (Objects plan) q a taskMap) ∧
     match last (seed_range sc) with
     | None => sdef_Seed sdef = ∅ ∧ Seed plan = ∅
     | Some (q, a) =>
         sdef_Seed sdef !! q = Some a ∧
         entry_tasks ctx lset (Objects plan) q a (Seed plan)
     end) ∧
  (∀ sc : plan_schedule,
     plan_schedule_ok example_sdef sc →
     ∃ plan queries,
       Plan (H := example_planning) Background example_peer example_lset sc
         example_sdef = Returns (plan, Some queries, None) ∧
       ((last (seed_range sc) = Some ("role=y", "taskBar") ∧
         Seed plan = {[ "C" := example_task "taskBar" ]}) ∨
        (last (seed_range sc) = Some ("role=x", "taskFoo") ∧
         Seed plan = {[ "A" := example_task "taskFoo";
                        "B" := example_task "taskFoo" ]}))).
Proof.
  split.
  - intros P ctx peer lset sc sdef plan queries. apply Plan_seed_last.
  - apply example_seed_either.
Qed.

Lemma Plan_seed_last_visited_survives_witness :
  ∃ plan queries,
    Plan (H := example_planning) Background example_peer example_lset
      y_then_x example_sdef = Returns (plan, Some queries, None) ∧
    Seed plan = {[ "A" := example_task "taskFoo";
                   "B" := example_task "taskFoo" ]}.
Proof.
  destruct (proj2 Plan_seed_last_visited_survives y_then_x)
    as (plan & queries & Hplan & Hseed).
  { split_and!; [reflexivity| |reflexivity].
    simpl. vm_compute (map_to_list _). reflexivity. }
  exists plan, queries. split; [exact Hplan|].
  destruct Hseed as [[Hlast _]|[_ Hseed]]; [discriminate Hlast|exact Hseed].
Defined.

(** C1 as stated fails: the seed map has no order of its own.  Visiting
    [role=y] before [role=x] is one of the orders the map iteration can take,
    and it leaves {A: taskFoo, B: taskFoo} in the plan, not {C: taskBar}. *)
Lemma Plan_seed_definition_order_counterexample :
  plan_schedule_ok example_sdef y_then_x ∧
  seed_range y_then_x = [("role=y", "taskBar"); ("role=x", "taskFoo")] ∧
  ∃ plan queries,
    Plan (H := example_planning) Background example_peer example_lset
      y_then_x example_sdef = Returns (plan, Some queries, None) ∧
    Seed plan = {[ "A" := example_task "taskFoo";
                   "B" := example_task "taskFoo" ]} ∧
    Seed plan ≠ {[ "C" := example_task "taskBar" ]}.
Proof.
  split; [exact y_then_x_ok|]. split; [reflexivity|].
  eexists _, _. split; [vm_compute; reflexivity|]. split; [reflexivity|].
  intros Heq. apply (f_equal (λ m, m !! "C")) in Heq. vm_compute in Heq.
  discriminate Heq.
Qed.

(** C6: when planning succeeds, the audit map is what results from writing,
    for every query of the benchmark phase in the order visited, the entry
    that maps the query's canonical string to the identifiers of the nodes it
    matched.  So every benchmark query has its canonical string as a key,
    every value is the identifier list of a benchmark query with that
    canonical string, and it is the list of the query itself whenever the
    queries that share its canonical string match the same nodes.  The map
    comes back as a result of its own, next to the plan. *)
Theorem Plan_queries_audit `{Planning} (ctx : Context) (peer : Peer)
    (lset : list Labeled) (sc : plan_schedule) (sdef : ScenarioDefinition)
    (plan : ScenarioPlan) (queries : gmap string (list string)) :
  plan_schedule_ok sdef sc →
  Plan ctx peer lset sc sdef = Returns (plan, Some queries, None) →
  (∃ entries,
     Forall2 (λ qa e, audited ctx lset qa.1 = Some e) (benchmark_range sc)
       entries ∧
     queries = record_all entries ∅) ∧
  (∀ q a, sdef_Benchmark sdef !! q = Some a →
     ∃ key ids, audited ctx lset q = Some (key, ids) ∧
                is_Some (queries !! key)) ∧
  (∀ key ids, queries !! key = Some ids →
     ∃ q a, sdef_Benchmark sdef !! q = Some a ∧
            audited ctx lset q = Some (key, ids)) ∧
  (∀ q a key ids,
     sdef_Benchmark sdef !! q = Some a →
     audited ctx lset q = Some (key, ids) →
     (∀ q' a' ids', sdef_Benchmark sdef !! q' = Some a' →
                    audited ctx lset q' = Some (key, ids') → ids' = ids) →
     queries !! key = Some ids).
Proof.
  intros (_ & _ & Hrange) Hplan.
  apply Plan_returns in Hplan as (objects & err0 & _ & Hcases).
  simpl in Hcases.
  destruct Hcases as [(_ & _ & [=] & _)|[(_ & _ & [=] & _)|Hok]].
  destruct Hok as (_ & plan1 & _ & Hbench).
  destruct Hbench as [(e & [=] & _)|(qs & _ & [= <-] & Hbench)].
  apply benchmark_loop_ok in Hbench as (_ & _ & entries & Hentries & ->).
  assert (∀ q a, sdef_Benchmark sdef !! q = Some a →
            ∃ key ids, audited ctx lset q = Some (key, ids) ∧
                       (key, ids) ∈ entries) as Hforth.
  { intros q a Hqa. apply elem_of_map_to_list in Hqa. rewrite <-Hrange in Hqa.
    apply list_elem_of_lookup in Hqa as [i Hi].
    destruct (Forall2_lookup_l _ _ _ _ _ Hentries Hi) as ([key ids] & Hi' & ?).
    exists key, ids. split; [done|]. by eapply list_elem_of_lookup_2. }
  assert (∀ key ids, (key, ids) ∈ entries →
            ∃ q a, sdef_Benchmark sdef !! q = Some a ∧
                   audited ctx lset q = Some (key, ids)) as Hback.
  { intros key ids Hin. apply list_elem_of_lookup in Hin as [i Hi].
    destruct (Forall2_lookup_r _ _ _ _ _ Hentries Hi) as ([q a] & Hi' & ?).
    exists q, a. split; [|done]. apply elem_of_map_to_list. rewrite <-Hrange.
    by eapply list_elem_of_lookup_2. }
  assert (∀ key ids, record_all entries ∅ !! key = Some ids →
            (key, ids) ∈ entries) as Hfrom.
  { intros key ids [?|[_ Hempty]]%record_all_lookup_Some; [done|].
    by rewrite lookup_empty in Hempty. }
  split_and!.
  - by exists entries.
  - intros q a Hqa. destruct (Hforth _ _ Hqa) as (key & ids & Haud & Hin).
    exists key, ids. split; [done|].
    destruct (record_all_lookup_in entries ∅ key) as (ids' & _ & ->); [|done].
    apply list_elem_of_fmap. by exists (key, ids).
  - intros key ids Hk. by apply Hback, Hfrom.
  - intros q a key ids Hqa Haud Hsame.
    destruct (Hforth _ _ Hqa) as (key' & ids' & Haud' & Hin).
    rewrite Haud in Haud'. injection Haud' as <- <-.
    destruct (record_all_lookup_in entries ∅ key) as (ids' & Hin' & ->).
    { apply list_elem_of_fmap. by exists (key, ids). }
    destruct (Hback _ _ Hin') as (q' & a' & Hqa' & Haud').
    f_equal. by eapply Hsame.
Qed.

Lemma Plan_queries_audit_witness :
  plan_schedule_ok example_sdef x_then_y ∧
  Plan (H := example_planning) Background example_peer example_lset x_then_y
    example_sdef = Returns (example_plan, Some example_queries, None) ∧
  example_queries !! "role=y" = Some ["C"].
Proof.
  split; [exact x_then_y_ok|]. split; [exact Plan_example|].
  apply (proj2 (proj2 (proj2
    (Plan_queries_audit (H := example_planning) Background example_peer
       example_lset x_then_y example_sdef example_plan example_queries
       x_then_y_ok Plan_example))) "role=y" "taskGet" "role=y" ["C"]).
  - vm_compute. reflexivity.
  - vm_compute. reflexivity.
  - intros q' a' ids' _ Haud. unfold audited in Haud. simpl in Haud.
    injection Haud as -> <-. vm_compute. reflexivity.
Defined.

(** Planning the scenario whose second object has no source. *)
Lemma Plan_broken :
  Plan (H := example_planning) Background example_peer example_lset
    broken_schedule broken_sdef =
  Returns ({| Objects := ∅; Seed := ∅; Benchmark := ∅ |}, None,
           Some (Opaque "no source")).
Proof. vm_compute. exact eq_refl. Defined.

Lemma Plan_error_nil_queries_witness :
  Plan (H := example_planning) Background example_peer example_lset
    broken_schedule broken_sdef =
  Returns ({| Objects := ∅; Seed := ∅; Benchmark := ∅ |}, None,
           Some (Opaque "no source")) ∧
  (is_Some (Some (Opaque "no source")) →
   (None : option (gmap string (list string))) = None).
Proof.
  split; [exact Plan_broken|].
  exact (proj1 (Plan_error_nil_queries (H := example_planning) Background
                  example_peer example_lset broken_schedule broken_sdef _ _ _
                  Plan_broken)).
Defined.

Lemma Plan_objects_all_or_none_witness :
  plan_schedule_ok example_sdef x_then_y ∧
  plan_schedule_ok broken_sdef broken_schedule ∧
  size (Objects example_plan) = size (sdef_Objects example_sdef) ∧
  ∃ plan err,
    Plan (H := example_planning) Background example_peer example_lset
      broken_schedule broken_sdef = Returns (plan, None, Some err) ∧
    Seed plan = ∅ ∧ Benchmark plan = ∅ ∧ err = Opaque "no source".
Proof.
  split; [exact x_then_y_ok|]. split; [exact broken_schedule_ok|]. split.
  - destruct (Plan_objects_all_or_none (H := example_planning) Background
                example_peer example_lset x_then_y example_sdef x_then_y_ok)
      as [Hok _].
    destruct (Hok _ _ Plan_example) as (_ & Hsize & _). exact Hsize.
  - destruct (Plan_objects_all_or_none (H := example_planning) Background
                example_peer example_lset broken_schedule broken_sdef
                broken_schedule_ok) as [_ Hfail].
    destruct (Hfail "void" (example_odef EmptyString) (Opaque "no source"))
      as (plan & name' & odef' & err & Hplan & _ & _ & Hseed & Hbench & Honly).
    { vm_compute. reflexivity. }
    { vm_compute. reflexivity. }
    exists plan, err. split_and!; [exact Hplan|exact Hseed|exact Hbench|].
    apply Honly. intros n o e' Hn Hres.
    destruct (decide (n = "void")) as [->|Hne]; [reflexivity|].
    exfalso. unfold broken_sdef in Hn. simpl in Hn.
    apply lookup_insert_Some in Hn as [[<- <-]|[_ Hn]].
    + vm_compute in Hres. discriminate Hres.
    + apply lookup_singleton_Some in Hn as [<- _]. by apply Hne.
Defined.

(** ** Properties of Connect *)

Section ConnectFacts.
Variable ctx : Context.

(** Members that read the iteration that started them are the members of
    the indices, in completion order. *)
Lemma fanout_fresh {S A : Type} (xs : list A) (body : nat → A → member S)
    (sc : schedule) :
  fresh sc →
  fanout xs body sc = omap (λ k, body k <$> xs !! k) (born <$> sc).
Proof.
  unfold fanout. induction 1 as [|sp sc Hsp _ IH]; [done|].
  rewrite fmap_cons. cbn [omap list_omap]. by rewrite Hsp, IH.
Qed.

Lemma omap_lookup_seq {A B : Type} (g : A → B) (pre xs : list A) :
  omap (λ k, g <$> (pre ++ xs)%list !! k) (seq (length pre) (length xs)) =
  g <$> xs.
Proof.
  revert pre. induction xs as [|x xs IH]; intros pre; [done|].
  cbn [length seq omap list_omap].
  rewrite list_lookup_middle by done. cbn [fmap option_fmap option_map].
  rewrite fmap_cons. f_equal.
  specialize (IH (pre ++ [x])%list).
  rewrite length_app, Nat.add_1_r, <-(assoc_L app) in IH. exact IH.
Qed.

(** When every node is reachable, collecting over the indices [ks] fails
    nowhere and fills exactly the slots [ks], slot [i] with the dial string
    of node [i]. *)
Lemma collect_all (ns : list Node) (ks : list nat) (peerAddrs : list string) :
  Forall (reachable ctx) ns →
  length peerAddrs = length ns →
  ∃ peerAddrs',
    run_members ctx None (omap (λ k, collect k <$> ns !! k) ks) peerAddrs =
      (peerAddrs', None) ∧
    length peerAddrs' = length ns ∧
    ∀ i, peerAddrs' !! i =
         if decide (i ∈ ks) then dial_of ctx <$> ns !! i else peerAddrs !! i.
Proof.
  intros Hall. revert peerAddrs.
  induction ks as [|k ks IH]; intros peerAddrs Hlen.
  { exists peerAddrs. split_and!; [done|done|].
    intros i. by rewrite decide_False by apply not_elem_of_nil. }
  simpl. destruct (ns !! k) as [n|] eqn:Hk; simpl.
  - assert (reachable ctx n) as (peerInfo & Hinfo & Haddrs).
    { eapply Forall_forall; [exact Hall|]. by eapply list_elem_of_lookup_2. }
    unfold collect at 1. rewrite Hinfo.
    rewrite decide_False by (by destruct (Addrs peerInfo)).
    destruct (IH (<[k := dial peerInfo]> peerAddrs))
      as (final & Hrun & Hlen' & Hfinal).
    { by rewrite length_insert. }
    exists final. split_and!; [done|done|].
    intros i. rewrite Hfinal.
    destruct (decide (i ∈ ks)) as [Hi|Hi].
    + by rewrite decide_True by (by apply elem_of_cons; right).
    + destruct (decide (i = k)) as [->|Hne].
      * rewrite decide_True by (by apply elem_of_cons; left).
        rewrite list_lookup_insert_eq.
        2:{ rewrite Hlen. by eapply lookup_lt_Some. }
        rewrite Hk. simpl. unfold dial_of. by rewrite Hinfo.
      * rewrite decide_False by (by intros [?|?]%elem_of_cons).
        by rewrite list_lookup_insert_ne.
  - destruct (IH peerAddrs Hlen) as (final & Hrun & Hlen' & Hfinal).
    exists final. split_and!; [done|done|].
    intros i. rewrite Hfinal.
    destruct (decide (i ∈ ks)) as [Hi|Hi].
    + by rewrite decide_True by (by apply elem_of_cons; right).
    + destruct (decide (i = k)) as [->|Hne].
      * rewrite decide_True by (by apply elem_of_cons; left).
        rewrite Hk. simpl. apply lookup_ge_None. rewrite Hlen.
        by apply lookup_ge_None.
      * by rewrite decide_False by (by intros [?|?]%elem_of_cons).
Qed.

(** The second fan-out makes one [Run] call per member, with the cancelled
    context, whether or not the calls succeed. *)
Lemma connect_all (ns : list Node) (ks : list nat) (peerAddrs : list string)
    (first : option error) (sent : list dispatch) :
  (run_members Cancelled first
     (omap (λ k, connect peerAddrs k <$> ns !! k) ks) sent).1 =
  (sent ++ omap (λ k, connect_call peerAddrs <$> ns !! k) ks)%list.
Proof.
  revert first sent. induction ks as [|k ks IH]; intros first sent.
  { simpl. by rewrite app_nil_r. }
  simpl. destruct (ns !! k) as [n|]; simpl; [|apply IH].
  unfold connect at 1. cbn beta iota zeta.
  destruct (Run n Cancelled _) as [e|], first as [e0|];
    rewrite IH, <-(assoc_L app); reflexivity.
Qed.

(** Had the loops copied their variables per iteration, a node without an
    address would stop [Connect] before anything is sent. *)
Lemma Connect_fresh_zero_addresses (collecting connecting : schedule)
    (ns : list Node) (k : nat) (n : Node) (peerInfo : PeerInfoT) :
  schedule_ok (length ns) collecting → fresh collecting →
  ns !! k = Some n → PeerInfo n ctx = Ok peerInfo → Addrs peerInfo = [] →
  ∃ err, Connect collecting connecting ctx ns = ([], Some err).
Proof.
  intros [Hperm _] Hfresh Hk Hinfo Haddrs. unfold Connect.
  rewrite fanout_fresh by done.
  destruct (Wait_fails ctx
              (omap (λ k, collect k <$> ns !! k) (born <$> collecting))
              (replicate (length ns) EmptyString) (collect k n))
    as [err Herr].
  - apply list_elem_of_omap. exists k. split; [|by rewrite Hk].
    rewrite Hperm. apply elem_of_seq. split; [lia|].
    by eapply lookup_lt_Some.
  - intros s0. unfold collect. rewrite Hinfo, Haddrs. by eexists.
  - destruct (Wait ctx _ _) as [peerAddrs err0]. simpl in Herr. subst err0.
    by exists err.
Qed.

(** Had the loops copied their variables per iteration, and with every node
    reachable, every node would be sent one connect task listing the dial
    strings of all the nodes, slot [i] holding that of node [i]. *)
Lemma Connect_fresh_mesh (collecting connecting : schedule)
    (ns : list Node) :
  schedule_ok (length ns) collecting → fresh collecting →
  schedule_ok (length ns) connecting → fresh connecting →
  Forall (reachable ctx) ns →
  ∃ sent err,
    Connect collecting connecting ctx ns = (sent, err) ∧
    sent ≡ₚ connect_call (dial_of ctx <$> ns) <$> ns.
Proof.
  intros [Hperm1 _] Hfresh1 [Hperm2 _] Hfresh2 Hall. unfold Connect.
  rewrite fanout_fresh by done.
  destruct (collect_all ns (born <$> collecting)
              (replicate (length ns) EmptyString) Hall)
    as (peerAddrs & Hrun & Hlen & Hslots).
  { apply length_replicate. }
  unfold Wait at 1. rewrite Hrun.
  assert (peerAddrs = dial_of ctx <$> ns) as ->.
  { apply list_eq. intros i. rewrite Hslots, list_lookup_fmap.
    case_decide as Hi; [done|].
    assert (length ns ≤ i)%nat as Hge.
    { rewrite Hperm1, elem_of_seq in Hi. lia. }
    rewrite (proj1 (lookup_replicate_None _ _ _) Hge).
    by rewrite (proj2 (lookup_ge_None _ _) Hge). }
  unfold Wait. rewrite fanout_fresh by done.
  pose proof (connect_all ns (born <$> connecting) (dial_of ctx <$> ns)
                None []) as Hsent.
  destruct (run_members Cancelled None _ []) as [sent err].
  exists sent, err. split; [done|]. simpl in Hsent. rewrite Hsent, Hperm2.
  by rewrite (omap_lookup_seq (connect_call (dial_of ctx <$> ns)) [] ns).
Qed.
End ConnectFacts.

Lemma after_loop_ok : schedule_ok 2 (after_loop 2).
Proof.
  split; [reflexivity|]. repeat constructor; simpl; lia.
Qed.

(** C2: the claim fails on the code.  Node Z reports no address and node B
    one.  Both loops of [Connect] hand their own loop variables to the
    goroutines, so when the goroutines get to run after the loop is over,
    both collectors ask B, no error is raised for Z, and the broadcast is
    entered: two connect tasks go out, both to B, and [Connect] returns
    nil. *)
Theorem Connect_zero_addresses_unnoticed :
  schedule_ok 2 (after_loop 2) ∧
  PeerInfo nodeZ Background = Ok {| ID := "QmZ"; Addrs := [] |} ∧
  Connect (after_loop 2) (after_loop 2) Background [nodeZ; nodeB] =
    ([connect_call [EmptyString; "/ip4/10.0.0.2/tcp/4001/p2p/QmB"] nodeB;
      connect_call [EmptyString; "/ip4/10.0.0.2/tcp/4001/p2p/QmB"] nodeB],
     None).
Proof. split; [exact after_loop_ok|]. split; reflexivity. Qed.

(** C4: the claim fails on the code.  Nodes A and B both report an address.
    When the goroutines get to run after the loops are over, both collectors
    write B's dial string to slot 1 and slot 0 keeps the empty string, and
    both connect tasks go to B with the subject [",<dial of B>"]: A is sent
    nothing and no task lists A's dial string. *)
Theorem Connect_shares_loop_variables :
  schedule_ok 2 (after_loop 2) ∧
  Forall (reachable Background) [nodeA; nodeB] ∧
  Connect (after_loop 2) (after_loop 2) Background [nodeA; nodeB] =
    ([{| to := "B"; with_ctx := Cancelled;
         task := {| Type_ := TaskConnect;
                    Subject := ",/ip4/10.0.0.2/tcp/4001/p2p/QmB" |} |};
      {| to := "B"; with_ctx := Cancelled;
         task := {| Type_ := TaskConnect;
                    Subject := ",/ip4/10.0.0.2/tcp/4001/p2p/QmB" |} |}],
     None) ∧
  Join (dial_of Background <$> [nodeA; nodeB]) "," =
    "/ip4/10.0.0.1/tcp/4001/p2p/QmA,/ip4/10.0.0.2/tcp/4001/p2p/QmB".
Proof.
  split; [exact after_loop_ok|]. split.
  { repeat constructor; eexists; (split; [reflexivity|done]). }
  split; reflexivity.
Qed.

(** ** Properties of postBenchmarksCreate *)

Section RunFacts.
Context `{Lab}.

Lemma Update_persist db benchmark report :
  Update db (persist benchmark report) =
    let id := benchmark_ID benchmark in
    let done_ := set_Status BenchmarkDone benchmark in
    match store_fault OpCreateReport with
    | Some e =>
        (db, [CallCreateReport id report],
         Some (Wrap e "failed to create report"))
    | None =>
        let log := [CallCreateReport id report; CallUpdateBenchmark done_] in
        match store_fault OpUpdateBenchmark with
        | Some e => (db, log, Some (Wrap e "failed to update benchmark"))
        | None =>
            match store_fault OpCommit with
            | Some e => (db, log, Some e)
            | None => (finished db benchmark report, log, None)
            end
        end
    end.
Proof.
  unfold Update, persist, CreateReport, UpdateBenchmark, finished. simpl.
  destruct (store_fault OpCreateReport); [done|].
  destruct (store_fault OpUpdateBenchmark); [done|].
  by destruct (store_fault OpCommit).
Qed.

(** How far a call of the handler got, and what it left behind. *)
Lemma postBenchmarksCreate_returns sc now JAEGER_UI seeder ctx r db res :
  postBenchmarksCreate sc now JAEGER_UI seeder ctx r db = Returns res →
  (calls res = [] ∧ db_after res = db ∧ is_Some (returned res)) ∨
  ∃ lset queries benchmark,
    planned sc now seeder ctx r lset queries benchmark ∧
    ResourceID res = Some (benchmark_id now r) ∧
    ((∃ e, store_fault OpCreateBenchmark = Some e ∧
           calls res = [CallCreateBenchmark benchmark] ∧
           db_after res = db ∧ returned res = Some e) ∨
     (store_fault OpCreateBenchmark = None ∧
      ∃ seederAddrs,
        let run := CallRun lset (benchmark_Plan benchmark) seederAddrs in
        (∃ e, scenarios_Run ctx lset (benchmark_Plan benchmark) seederAddrs =
                Fail e ∧
              calls res = [CallCreateBenchmark benchmark; run] ∧
              db_after res = created db benchmark ∧
              returned res = Some (Wrap e "failed to run scenario plan")) ∨
        (∃ execution report written,
           scenarios_Run ctx lset (benchmark_Plan benchmark) seederAddrs =
             Ok execution ∧
           Queries report = queries ∧
           Update (created db benchmark) (persist benchmark report) =
             (db_after res, written, returned res) ∧
           calls res =
             ([CallCreateBenchmark benchmark; run] ++ written)%list))).
Proof.
  unfold postBenchmarksCreate. intros Hrun.
  destruct (if decide (form_no_reset r ≠ EmptyString) then _ else _)
    as [noReset|e]; [|injection Hrun as <-; left; simpl; eauto].
  destruct (GetScenario ctx _) as [scenario|e] eqn:Hscenario;
    [|injection Hrun as <-; left; simpl; eauto].
  destruct (GetCluster ctx _) as [cluster|e] eqn:Hcluster;
    [|injection Hrun as <-; left; simpl; eauto].
  destruct (ListNodes ctx _) as [mns|e] eqn:Hnodes;
    [|injection Hrun as <-; left; simpl; eauto].
  destruct (if noReset then _ else _) as [sent [e|]];
    [injection Hrun as <-; left; simpl; eauto|].
  destruct (Plan ctx seeder _ _ _) as [[[plan queries] [e|]]|] eqn:Hplan;
    [injection Hrun as <-; left; simpl; eauto| |done].
  right.
  set (benchmark := {| benchmark_ID := _ |}) in Hrun.
  exists (IsNode <$> (NewNode <$> mns)), queries, benchmark.
  split. { by exists scenario, cluster, mns, plan. }
  unfold CreateBenchmark in Hrun.
  destruct (store_fault OpCreateBenchmark) as [e|] eqn:Hcreate.
  { injection Hrun as <-. simpl. split; [done|]. left. by exists e. }
  fold (created db benchmark) in Hrun.
  set (seederAddrs := _ <$> host_Addrs seeder) in Hrun.
  destruct (scenarios_Run ctx _ plan seederAddrs)
    as [[[[Start End] nodeReports] traceID]|e] eqn:Hexec.
  2:{ injection Hrun as <-. simpl. split; [done|]. right. split; [done|].
      exists seederAddrs. left. by exists e. }
  match type of Hrun with
  | context [Update _ (persist _ ?report)] => set (final := report) in Hrun
  end.
  destruct (Update _ (persist benchmark final)) as [[db' written] err]
    eqn:Hupdate.
  injection Hrun as <-. simpl. split; [done|]. right. split; [done|].
  exists seederAddrs. right. eexists _, final, written.
  split_and!; [done| |done|done].
  subst final. simpl. by repeat case_match.
Qed.
End RunFacts.

(** C7: when the plan executor is called and fails, the handler returns
    that error wrapped as a failure to run the plan, and the only calls it
    has made are the creation of the benchmark record and the executor call:
    no report is created and the record is not updated.  The store then holds
    the record under the benchmark id with status Running, and its reports
    are those it had before. *)
Theorem failed_run_leaves_benchmark_running `{Lab} (sc : run_schedule)
    (now : Z) (JAEGER_UI : string) (seeder : Peer) (ctx : Context)
    (r : Request) (db : Store) (res : run_result) (lset : list Labeled)
    (plan : ScenarioPlan) (seederAddrs : list string) (e : error) :
  postBenchmarksCreate sc now JAEGER_UI seeder ctx r db = Returns res →
  CallRun lset plan seederAddrs ∈ calls res →
  scenarios_Run ctx lset plan seederAddrs = Fail e →
  returned res = Some (Wrap e "failed to run scenario plan") ∧
  ∃ benchmark,
    calls res = [CallCreateBenchmark benchmark;
                 CallRun lset plan seederAddrs] ∧
    benchmark_ID benchmark = benchmark_id now r ∧
    Status benchmark = BenchmarkRunning ∧
    benchmark_Plan benchmark = plan ∧
    benchmarks (db_after res) =
      <[benchmark_id now r := benchmark]> (benchmarks db) ∧
    benchmarks (db_after res) !! benchmark_id now r = Some benchmark ∧
    reports (db_after res) = reports db.
Proof.
  intros Hrun Hcall Hfail.
  apply postBenchmarksCreate_returns in Hrun
    as [(Hnone & _)|(lset' & queries & benchmark & Hplanned & _ & Hrun)].
  { rewrite Hnone in Hcall. by apply elem_of_nil in Hcall. }
  assert (benchmark_ID benchmark = benchmark_id now r ∧
          Status benchmark = BenchmarkRunning) as [Hid Hstatus].
  { by destruct Hplanned as (? & ? & ? & ? & _ & _ & _ & _ & _ & ->). }
  destruct Hrun as [(e' & _ & Hcalls & _)|(_ & addrs & Hrun)].
  { rewrite Hcalls in Hcall.
    apply elem_of_cons in Hcall as [[=]|Hcall]. by apply elem_of_nil in Hcall. }
  simpl in Hrun.
  destruct Hrun as [(e' & Hexec & Hcalls & Hdb & Hret)
                   |(execution & report & written & Hexec & _ & Hupd & Hcalls)].
  - rewrite Hcalls in Hcall.
    apply elem_of_cons in Hcall as [[=]|Hcall].
    apply elem_of_cons in Hcall as [[= -> -> ->]|Hcall];
      [|by apply elem_of_nil in Hcall].
    rewrite Hexec in Hfail. injection Hfail as ->.
    split; [done|]. exists benchmark. rewrite Hcalls, Hdb. simpl.
    rewrite Hid. split_and!; try done. apply lookup_insert_eq.
  - exfalso. rewrite Hcalls, Update_persist in *. simpl in Hupd.
    assert (CallRun lset plan seederAddrs =
            CallRun lset' (benchmark_Plan benchmark) addrs) as [= -> -> ->].
    { repeat case_match; simplify_eq; simpl in Hcall;
        repeat (apply elem_of_cons in Hcall as [Hcall|Hcall];
                [simplify_eq; try done|]);
        by apply elem_of_nil in Hcall. }
    congruence.
Qed.


(** The handler never reads the store: what it calls and returns is the same
    whatever the store holds. *)
Lemma postBenchmarksCreate_ignores_store `{Lab} (sc : run_schedule) (now : Z)
    (JAEGER_UI : string) (seeder : Peer) (ctx : Context) (r : Request)
    (db db' : Store) (res : run_result) :
  postBenchmarksCreate sc now JAEGER_UI seeder ctx r db = Returns res →
  ∃ res',
    postBenchmarksCreate sc now JAEGER_UI seeder ctx r db' = Returns res' ∧
    calls res' = calls res ∧ returned res' = returned res ∧
    ResourceID res' = ResourceID res ∧ sent res' = sent res.
Proof.
  unfold postBenchmarksCreate. intros Hrun.
  destruct (if decide (form_no_reset r ≠ EmptyString) then _ else _)
    as [noReset|e]; [|injection Hrun as <-; by eexists].
  destruct (GetScenario ctx _) as [scenario|e];
    [|injection Hrun as <-; by eexists].
  destruct (GetCluster ctx _) as [cluster|e];
    [|injection Hrun as <-; by eexists].
  destruct (ListNodes ctx _) as [mns|e];
    [|injection Hrun as <-; by eexists].
  destruct (if noReset then _ else _) as [sent [e|]];
    [injection Hrun as <-; by eexists|].
  destruct (Plan ctx seeder _ _ _) as [[[plan queries] [e|]]|];
    [injection Hrun as <-; by eexists| |done].
  unfold CreateBenchmark in *.
  destruct (store_fault OpCreateBenchmark) as [e|];
    [injection Hrun as <-; by eexists|].
  destruct (scenarios_Run ctx _ plan _)
    as [[[[Start End] nodeReports] traceID]|e];
    [|injection Hrun as <-; by eexists].
  rewrite Update_persist in *. simpl in *.
  destruct (store_fault OpCreateReport);
    [injection Hrun as <-; by eexists|].
  destruct (store_fault OpUpdateBenchmark);
    [injection Hrun as <-; by eexists|].
  destruct (store_fault OpCommit); injection Hrun as <-; by eexists.
Qed.

(** C9 (as amended): the record the handler hands to [CreateBenchmark] has
    as identifier the cluster id, the scenario id and the decimal nanosecond
    timestamp joined by hyphens; that identifier is the resource-id header of
    the response.  The record has status Running, carries the cluster, the
    scenario and the plan just computed, and its labels are the benchmark id,
    the cluster id and the scenario id, in that order.  Creating it is the
    first call the handler makes, before the executor, and it is made
    whatever the store holds: nothing checks the identifier for uniqueness.
    Unless creation fails the store ends with this record under the id,
    Running, or with its Done copy. *)
Theorem benchmark_created_running `{Lab} (sc : run_schedule) (now : Z)
    (JAEGER_UI : string) (seeder : Peer) (ctx : Context) (r : Request)
    (db : Store) (res : run_result) (benchmark : BenchmarkRecord) :
  postBenchmarksCreate sc now JAEGER_UI seeder ctx r db = Returns res →
  CallCreateBenchmark benchmark ∈ calls res →
  let cid := form_cluster r in
  let sid := form_scenario r in
  let bid := cid +:+ "-" +:+ sid +:+ "-" +:+ pretty now in
  benchmark_ID benchmark = bid ∧
  ResourceID res = Some bid ∧
  Status benchmark = BenchmarkRunning ∧
  Labels benchmark = [bid; cid; sid] ∧
  GetCluster ctx cid = Ok (benchmark_Cluster benchmark) ∧
  GetScenario ctx sid = Ok (benchmark_Scenario benchmark) ∧
  (∃ mns queries,
     ListNodes ctx cid = Ok mns ∧
     Plan ctx seeder (IsNode <$> (NewNode <$> mns)) (planning sc)
       (scenario_Definition (benchmark_Scenario benchmark)) =
       Returns (benchmark_Plan benchmark, queries, None)) ∧
  head (calls res) = Some (CallCreateBenchmark benchmark) ∧
  (∀ db', ∃ res',
     postBenchmarksCreate sc now JAEGER_UI seeder ctx r db' = Returns res' ∧
     calls res' = calls res) ∧
  (store_fault OpCreateBenchmark = None →
   benchmarks (db_after res) !! bid = Some benchmark ∨
   benchmarks (db_after res) !! bid =
     Some (set_Status BenchmarkDone benchmark)).
Proof.
  intros Hrun Hcall cid sid bid.
  assert (∀ db', ∃ res',
            postBenchmarksCreate sc now JAEGER_UI seeder ctx r db' =
              Returns res' ∧ calls res' = calls res) as Hany.
  { intros db'.
    destruct (postBenchmarksCreate_ignores_store _ _ _ _ _ _ _ db' _ Hrun)
      as (res' & ? & ? & _). by exists res'. }
  apply postBenchmarksCreate_returns in Hrun
    as [(Hnone & _)|(lset & queries & planned_ & Hplanned & Hheader & Hrun)].
  { rewrite Hnone in Hcall. by apply elem_of_nil in Hcall. }
  assert (benchmark = planned_ ∧
          head (calls res) = Some (CallCreateBenchmark planned_) ∧
          (store_fault OpCreateBenchmark = None →
           db_after res = created db planned_ ∨
           ∃ report, db_after res = finished (created db planned_) planned_
                                      report)) as (-> & Hhead & Hdb).
  { destruct Hrun as [(e & Hfault & Hcalls & _)|(_ & addrs & Hrun)].
    { rewrite Hcalls in Hcall |- *.
      apply elem_of_cons in Hcall as [[= ->]|Hcall];
        [|by apply elem_of_nil in Hcall].
      split_and!; [done|done|]. by rewrite Hfault. }
    simpl in Hrun.
    destruct Hrun as [(e & _ & Hcalls & Hdb & _)
                     |(execution & report & written & _ & _ & Hupd & Hcalls)].
    { rewrite Hcalls in Hcall |- *.
      apply elem_of_cons in Hcall as [[= ->]|Hcall].
      2:{ apply elem_of_cons in Hcall as [[=]|Hcall].
          by apply elem_of_nil in Hcall. }
      split_and!; [done|done|]. by left. }
    rewrite Hcalls in Hcall |- *. rewrite Update_persist in Hupd.
    simpl in Hupd.
    assert (CallCreateBenchmark benchmark ∉ written) as Hwritten.
    { repeat case_match; simplify_eq;
        rewrite ?not_elem_of_cons; split_and?; try done;
        apply not_elem_of_nil. }
    apply elem_of_cons in Hcall as [[= ->]|Hcall].
    2:{ apply elem_of_cons in Hcall as [[=]|Hcall]. done. }
    split_and!; [done|done|]. intros _.
    repeat case_match; simplify_eq; eauto. }
  destruct Hplanned as (scenario & cluster & mns & plan & Hscenario & Hcluster
                        & Hnodes & -> & Hplan & ->).
  simpl. split_and!; try done.
  - by exists mns, queries.
  - intros Hfault. destruct (Hdb Hfault) as [->|[report ->]]; simpl.
    + left. apply lookup_insert_eq.
    + right. apply lookup_insert_eq.
Qed.

(** The calls of the three example runs. *)
Lemma calls_failed_execution :
  calls_of (run_example failed_execution no_fault) =
    [CallCreateBenchmark (example_benchmark failed_execution no_fault);
     CallRun example_lset example_plan seeder_addrs].
Proof. vm_compute. exact eq_refl. Defined.


Lemma calls_no_fault :
  calls_of (run_example example_execution no_fault) =
    [CallCreateBenchmark (example_benchmark example_execution no_fault);
     CallRun example_lset example_plan seeder_addrs;
     CallCreateReport "c1-s1-42" (example_report example_execution no_fault);
     CallUpdateBenchmark
       (set_Status BenchmarkDone
          (example_benchmark example_execution no_fault))].
Proof. vm_compute. exact eq_refl. Defined.

Lemma failed_run_leaves_benchmark_running_witness :
  match run_example failed_execution no_fault with
  | Returns res =>
      CallRun example_lset example_plan seeder_addrs ∈ calls res ∧
      returned res =
        Some (Wrap (Opaque "node C: task failed")
                "failed to run scenario plan")
  | Panics => False
  end.
Proof.
  pose proof calls_failed_execution as Hcalls.
  destruct (run_example failed_execution no_fault) as [res|] eqn:Hrun;
    [|discriminate Hcalls].
  simpl in Hcalls.
  assert (CallRun example_lset example_plan seeder_addrs ∈ calls res)
    as Hcall.
  { rewrite Hcalls. apply list_elem_of_further, list_elem_of_here. }
  split; [exact Hcall|].
  exact (proj1 (failed_run_leaves_benchmark_running
                  (H := example_lab failed_execution no_fault)
                  example_run_schedule 42 "http://jaeger:16686" example_peer
                  Background example_request empty_store res example_lset
                  example_plan seeder_addrs (Opaque "node C: task failed")
                  Hrun Hcall eq_refl)).
Defined.


Lemma benchmark_created_running_witness :
  match run_example example_execution no_fault with
  | Returns res =>
      CallCreateBenchmark (example_benchmark example_execution no_fault)
        ∈ calls res ∧
      ResourceID res = Some "c1-s1-42"
  | Panics => False
  end.
Proof.
  pose proof calls_no_fault as Hcalls.
  destruct (run_example example_execution no_fault) as [res|] eqn:Hrun;
    [|discriminate Hcalls].
  simpl in Hcalls.
  assert (CallCreateBenchmark (example_benchmark example_execution no_fault)
            ∈ calls res) as Hcall.
  { rewrite Hcalls. apply list_elem_of_here. }
  split; [exact Hcall|].
  exact (proj1 (proj2 (benchmark_created_running
                         (H := example_lab example_execution no_fault)
                         example_run_schedule 42 "http://jaeger:16686"
                         example_peer Background example_request empty_store
                         res _ Hrun Hcall))).
Defined.

(** C9 as stated fails: the identifier is not the plain concatenation of the
    cluster id, the scenario id and the timestamp.  For cluster [c1],
    scenario [s1] and instant 42 the record is created under [c1-s1-42], and
    the concatenation is [c1s142]. *)
Lemma benchmark_id_concatenation_counterexample :
  head (calls_of (run_example example_execution no_fault)) =
    Some (CallCreateBenchmark
            (example_benchmark example_execution no_fault)) ∧
  benchmark_ID (example_benchmark example_execution no_fault) = "c1-s1-42" ∧
  form_cluster example_request +:+ form_scenario example_request +:+
    pretty 42%Z = "c1s142" ∧
  benchmark_ID (example_benchmark example_execution no_fault) ≠
    form_cluster example_request +:+ form_scenario example_request +:+
      pretty 42%Z.
Proof.
  split; [by rewrite calls_no_fault|]. split; [reflexivity|].
  split; [reflexivity|]. discriminate.
Qed.

(** ** Further properties of Plan *)

Section MorePlannerFacts.
Context `{Planning}.
Variables (ctx : Context) (peer : Peer) (lset : list Labeled).

Lemma entry_tasks_outcome objects q a taskMap :
  entry_tasks ctx lset objects q a taskMap ↔
  entry_outcome ctx lset objects q a = Returns (Ok taskMap).
Proof.
  unfold entry_tasks, entry_outcome. split.
  - intros (qry & mset & action & ns & -> & -> & -> & -> & ->). done.
  - intros Hrun. body Hrun. injection Hrun as Hrun. by eexists _, _, _, _.
Qed.

(** When every definition resolves, no member fails. *)
Lemma run_materialize_total l gctx objects :
  (∀ name odef, (name, odef) ∈ l → ∃ c, resolve gctx peer odef = Ok c) →
  ∃ objects',
    run_members gctx None (materialize peer <$> l) objects = (objects', None).
Proof.
  revert objects. induction l as [|[name odef] l IH]; intros objects Hall.
  { by eexists. }
  rewrite fmap_cons. cbn [run_members]. rewrite materialize_resolve.
  assert ((name, odef) ∈ (name, odef) :: l) as Hhead
    by (by apply elem_of_cons; left).
  destruct (Hall name odef Hhead) as [c ->].
  apply IH. intros name' odef' Hin. apply (Hall name').
  by apply elem_of_cons; right.
Qed.

(** The benchmark loop, when it runs to its end, leaves the task map of the
    entry visited last. *)
Lemma benchmark_loop_last range queries plan plan' queries' :
  benchmark_loop ctx lset range queries plan = Returns (plan', Ok queries') →
  (∀ q a, (q, a) ∈ range →
     ∃ taskMap, entry_tasks ctx lset (Objects plan) q a taskMap) ∧
  match last range with
  | None => Benchmark plan' = Benchmark plan ∧ queries' = queries
  | Some (q, a) => entry_tasks ctx lset (Objects plan) q a (Benchmark plan')
  end.
Proof.
  revert queries plan.
  induction range as [|[q a] range IH]; intros queries plan Hrun.
  { injection Hrun as <- <-. split; [|done].
    intros ?? Hin. by apply elem_of_nil in Hin. }
  cbn [benchmark_loop] in Hrun. body Hrun.
  destruct (IH _ _ Hrun) as (Hall & Hlast). simpl in Hall.
  match type of Hrun with
  | benchmark_loop _ _ _ _ (set_Benchmark ?taskMap _) = _ =>
      assert (entry_tasks ctx lset (Objects plan) q a taskMap) as Hentry
        by (by eexists _, _, _, _)
  end.
  split.
  - intros q' a' [[= -> ->]|Hin]%elem_of_cons; [by eexists|by apply Hall].
  - destruct range as [|qa range].
    { injection Hrun as <- _. exact Hentry. }
    change (last ((q, a) :: qa :: range)) with (last (qa :: range)).
    destruct (last (qa :: range)) as [[q' a']|] eqn:Hl; [exact Hlast|].
    by apply last_None in Hl.
Qed.


(** With only nodes selected, the loops do not panic. *)
Lemma seed_loop_returns range plan :
  selects_nodes ctx lset → seed_loop ctx lset range plan ≠ Panics.
Proof.
  intros Hnodes. revert plan.
  induction range as [|[q a] range IH]; intros plan; [done|].
  cbn [seed_loop].
  destruct (query_Parse ctx q) as [qry|e]; [|done].
  destruct (Match qry ctx lset) as [mset|e] eqn:Hmatch; [|done].
  destruct (actions_Parse (Objects plan) a) as [action|e]; [|done].
  destruct (mapM as_Node mset) as [ns|] eqn:Hns.
  - destruct (Tasks action ctx ns); [apply IH|done].
  - exfalso. apply Hnodes in Hmatch.
    apply (mapM_is_Some as_Node) in Hmatch. rewrite Hns in Hmatch.
    by destruct Hmatch.
Qed.

Lemma benchmark_loop_returns range queries plan :
  selects_nodes ctx lset →
  benchmark_loop ctx lset range queries plan ≠ Panics.
Proof.
  intros Hnodes. revert queries plan.
  induction range as [|[q a] range IH]; intros queries plan; [done|].
  cbn [benchmark_loop].
  destruct (query_Parse ctx q) as [qry|e]; [|done].
  destruct (Match qry ctx lset) as [mset|e] eqn:Hmatch; [|done].
  destruct (actions_Parse (Objects plan) a) as [action|e]; [|done].
  destruct (mapM as_Node mset) as [ns|] eqn:Hns.
  - destruct (Tasks action ctx ns); [apply IH|done].
  - exfalso. apply Hnodes in Hmatch.
    apply (mapM_is_Some as_Node) in Hmatch. rewrite Hns in Hmatch.
    by destruct Hmatch.
Qed.

Lemma Plan_returns_on_nodes sc sdef :
  selects_nodes ctx lset → Plan ctx peer lset sc sdef ≠ Panics.
Proof.
  intros Hnodes. unfold Plan.
  destruct (Wait ctx _ _) as [objects [e|]]; [done|].
  pose proof (seed_loop_returns (seed_range sc)
                (set_Objects objects
                   {| Objects := ∅; Seed := ∅; Benchmark := ∅ |}) Hnodes)
    as Hseed.
  destruct (seed_loop _ _ _ _) as [[plan1 [[]|e1]]|]; [|done|done].
  pose proof (benchmark_loop_returns (benchmark_range sc) ∅ plan1 Hnodes)
    as Hbench.
  by destruct (benchmark_loop _ _ _ _ _) as [[plan2 [qs|e2]]|].
Qed.

(** When every definition resolves, the object phase succeeds with the
    table [resolved], whatever the order of completion. *)
Lemma Wait_materialize_resolved sc sdef :
  objects_done sc ≡ₚ map_to_list (sdef_Objects sdef) →
  (∀ name odef, sdef_Objects sdef !! name = Some odef →
     ∃ c, resolve ctx peer odef = Ok c) →
  Wait ctx (materialize peer <$> objects_done sc) ∅ =
    (resolved ctx peer sdef, None).
Proof.
  intros Hperm Hall.
  assert (∀ name odef,
            (name, odef) ∈ objects_done sc ↔
            sdef_Objects sdef !! name = Some odef) as Hin.
  { intros name odef. rewrite Hperm. apply elem_of_map_to_list. }
  assert (NoDup (objects_done sc).*1) as Hdup.
  { rewrite Hperm. apply NoDup_fst_map_to_list. }
  unfold Wait.
  destruct (run_materialize_total (objects_done sc) ctx ∅) as [objects Hrun].
  { intros name odef Hl. by apply (Hall name), Hin. }
  rewrite Hrun. f_equal.
  destruct (run_materialize_ok peer _ _ _ _ Hrun Hdup) as [Hbound Hrest].
  apply map_eq. intros k. unfold resolved. rewrite lookup_omap.
  destruct (sdef_Objects sdef !! k) as [odef|] eqn:Hk; simpl.
  - destruct (Hbound k odef) as (c & -> & ->); [by apply Hin|done].
  - rewrite Hrest, lookup_empty; [done|].
    intros ([k' odef] & -> & Hl)%list_elem_of_fmap. apply Hin in Hl.
    simpl in Hk. congruence.
Qed.
End MorePlannerFacts.

Section MorePlannerFacts2.
Context `{Planning}.
Variables (ctx : Context) (lset : list Labeled).

Lemma benchmark_loop_Objects range queries plan plan' r :
  benchmark_loop ctx lset range queries plan = Returns (plan', r) →
  Objects plan' = Objects plan ∧ Seed plan' = Seed plan.
Proof.
  revert queries plan.
  induction range as [|[q a] range IH]; intros queries plan Hrun.
  { by injection Hrun as <- <-. }
  cbn [benchmark_loop] in Hrun. body Hrun; try (by injection Hrun as <- <-).
  by destruct (IH _ _ Hrun).
Qed.
End MorePlannerFacts2.

(** X1: when planning succeeds, the task map of every benchmark entry has
    been computed against the plan's objects, and the plan's Benchmark map is
    the task map of the entry visited last, whatever the other entries
    assigned; with no benchmark entry both the Benchmark map and the audit
    map are empty. *)
Theorem Plan_benchmark_last_visited_survives `{Planning} (ctx : Context)
    (peer : Peer) (lset : list Labeled) (sc : plan_schedule)
    (sdef : ScenarioDefinition) (plan : ScenarioPlan)
    (queries : gmap string (list string)) :
  plan_schedule_ok sdef sc →
  Plan ctx peer lset sc sdef = Returns (plan, Some queries, None) →
  (∀ q a, sdef_Benchmark sdef !! q = Some a →
     ∃ taskMap, entry_tasks ctx lset (Objects plan) q a taskMap) ∧
  match last (benchmark_range sc) with
  | None => sdef_Benchmark sdef = ∅ ∧ Benchmark plan = ∅ ∧ queries = ∅
  | Some (q, a) =>
      sdef_Benchmark sdef !! q = Some a ∧
      entry_tasks ctx lset (Objects plan) q a (Benchmark plan)
  end.
Proof.
  intros (_ & _ & Hrange) Hplan.
  apply Plan_returns in Hplan as (objects & err0 & _ & Hcases).
  simpl in Hcases.
  destruct Hcases as [(_ & _ & [=] & _)|[(_ & _ & [=] & _)|Hok]].
  destruct Hok as (_ & plan1 & Hseed & Hbench).
  destruct Hbench as [(e & [=] & _)|(qs & _ & [= <-] & Hbench)].
  apply seed_loop_Objects in Hseed as [Hobjects1 Hbench1].
  simpl in Hobjects1, Hbench1.
  pose proof (benchmark_loop_Objects _ _ _ _ _ _ _ Hbench) as [Hobjects _].
  apply benchmark_loop_last in Hbench as (Hall & Hlast).
  rewrite Hobjects. split.
  - intros q a Hqa. apply Hall. rewrite Hrange. by apply elem_of_map_to_list.
  - destruct (last (benchmark_range sc)) as [[q a]|] eqn:Hl.
    + split; [|done]. apply elem_of_map_to_list. rewrite <-Hrange.
      by apply last_Some_elem_of.
    + destruct Hlast as [-> ->]. split_and!; [|done|done].
      apply last_None in Hl. rewrite Hl in Hrange.
      apply map_to_list_empty_iff. symmetry. by apply Permutation_nil_l.
Qed.

Lemma Plan_benchmark_last_visited_survives_witness :
  plan_schedule_ok example_sdef x_then_y ∧
  Plan (H := example_planning) Background example_peer example_lset x_then_y
    example_sdef = Returns (example_plan, Some example_queries, None) ∧
  entry_tasks (H := example_planning) Background example_lset
    (Objects example_plan) "role=y" "taskGet" (Benchmark example_plan).
Proof.
  split; [exact x_then_y_ok|]. split; [exact Plan_example|].
  exact (proj2 (proj2 (Plan_benchmark_last_visited_survives
                         (H := example_planning) Background example_peer
                         example_lset x_then_y example_sdef example_plan
                         example_queries x_then_y_ok Plan_example))).
Defined.

(** X2: when every object definition resolves, the Objects map of the plan
    that [Plan] returns is the table of the resolved content ids, one per
    definition, whatever order the goroutines complete in and whether or not
    a later phase fails. *)
Theorem Plan_objects_whatever_the_order `{Planning} (ctx : Context)
    (peer : Peer) (lset : list Labeled) (sc : plan_schedule)
    (sdef : ScenarioDefinition) (plan : ScenarioPlan)
    (queries : option (gmap string (list string))) (err : option error) :
  plan_schedule_ok sdef sc →
  (∀ name odef, sdef_Objects sdef !! name = Some odef →
     ∃ c, resolve ctx peer odef = Ok c) →
  Plan ctx peer lset sc sdef = Returns (plan, queries, err) →
  Objects plan = resolved ctx peer sdef ∧
  dom (Objects plan) = dom (sdef_Objects sdef).
Proof.
  intros (Hperm & _ & _) Hall Hplan.
  assert (Objects plan = resolved ctx peer sdef) as Hobjects.
  { apply Plan_returns in Hplan as (objects & err0 & Hwait & Hcases).
    rewrite (Wait_materialize_resolved ctx peer sc sdef Hperm Hall) in Hwait.
    injection Hwait as <- <-. simpl in Hcases.
    destruct Hcases as [(<- & [? [=]] & _)|[(_ & _ & _ & e & _ & Hseed)|Hok]].
    - by apply seed_loop_Objects in Hseed as [-> _].
    - destruct Hok as (_ & plan1 & Hseed & Hbench).
      apply seed_loop_Objects in Hseed as [Hseed _]. simpl in Hseed.
      destruct Hbench as [(e & _ & _ & Hbench)|(qs & _ & _ & Hbench)];
        apply benchmark_loop_Objects in Hbench as [-> _]; done. }
  split; [done|]. rewrite Hobjects. unfold resolved.
  apply set_eq. intros k. rewrite !elem_of_dom, lookup_omap.
  destruct (sdef_Objects sdef !! k) as [odef|] eqn:Hk; simpl.
  - destruct (Hall _ _ Hk) as [c ->]. split; by eauto.
  - split; by intros [??].
Qed.

Lemma example_objects_resolve (name : string) (odef : ObjectDefinition) :
  sdef_Objects example_sdef !! name = Some odef →
  ∃ c, resolve (H := example_planning) Background example_peer odef = Ok c.
Proof.
  unfold example_sdef. simpl.
  intros [_ <-]%lookup_singleton_Some. eexists. vm_compute. reflexivity.
Defined.

Lemma Plan_objects_whatever_the_order_witness :
  plan_schedule_ok example_sdef y_then_x ∧
  Objects example_plan =
    resolved (H := example_planning) Background example_peer example_sdef.
Proof.
  split; [exact y_then_x_ok|].
  exact (proj1 (Plan_objects_whatever_the_order (H := example_planning)
                  Background example_peer example_lset x_then_y example_sdef
                  example_plan (Some example_queries) None x_then_y_ok
                  example_objects_resolve Plan_example)).
Defined.




(** X4: when every labeled value that a query selects from the set is a
    node, [Plan] returns: the type assertions of the two loops cannot
    panic. *)
Theorem Plan_returns_when_nodes_selected `{Planning} (ctx : Context)
    (peer : Peer) (lset : list Labeled) (sc : plan_schedule)
    (sdef : ScenarioDefinition) :
  selects_nodes ctx lset →
  ∃ plan queries err,
    Plan ctx peer lset sc sdef = Returns (plan, queries, err).
Proof.
  intros Hnodes.
  pose proof (Plan_returns_on_nodes ctx peer lset sc sdef Hnodes) as Hret.
  destruct (Plan ctx peer lset sc sdef) as [[[plan queries] err]|]; [|done].
  by exists plan, queries, err.
Qed.

Lemma example_selects_nodes :
  selects_nodes (H := example_planning) Background example_lset.
Proof.
  intros qry mset [= <-]. apply Forall_forall.
  intros l [_ Hl]%list_elem_of_filter.
  apply list_elem_of_fmap in Hl as (n & -> & _). by eexists.
Defined.

Lemma Plan_returns_when_nodes_selected_witness :
  selects_nodes (H := example_planning) Background example_lset ∧
  ∃ plan queries err,
    Plan (H := example_planning) Background example_peer example_lset
      broken_schedule broken_sdef = Returns (plan, queries, err).
Proof.
  split; [exact example_selects_nodes|].
  exact (Plan_returns_when_nodes_selected (H := example_planning) Background
           example_peer example_lset broken_schedule broken_sdef
           example_selects_nodes).
Defined.

(** ** Further properties of Connect *)

Section MoreErrgroupFacts.
Context {S : Type}.
Implicit Types (members : list (member S)) (s : S).

End MoreErrgroupFacts.

Section MoreConnectFacts.
Variable ctx : Context.

Lemma fanout_members {S A : Type} (xs : list A) (body : nat → A → member S)
    (sc : schedule) (f : member S) :
  f ∈ fanout xs body sc → ∃ i x, xs !! i = Some x ∧ f = body i x.
Proof.
  unfold fanout. intros (sp & _ & Hf)%list_elem_of_omap.
  destruct (xs !! seen sp) as [x|] eqn:Hx; [|done].
  injection Hf as <-. by exists (seen sp), x.
Qed.

Lemma fanout_empty {S A : Type} (body : nat → A → member S) (sc : schedule) :
  fanout [] body sc = [].
Proof. unfold fanout. induction sc as [|sp sc IH]; [done|]. by simpl. Qed.

Lemma fanout_connect (ns : list Node) (peerAddrs : list string)
    (sc : schedule) :
  fanout ns (connect peerAddrs) sc = connect peerAddrs 0 <$> visited ns sc.
Proof.
  unfold fanout, visited. induction sc as [|sp sc IH]; [done|].
  cbn [omap list_omap]. destruct (ns !! seen sp) as [n|]; simpl; [|done].
  by rewrite IH.
Qed.

Lemma visited_elem_of {A : Type} (xs : list A) (sc : schedule) (x : A) :
  x ∈ visited xs sc → x ∈ xs.
Proof.
  unfold visited. intros (sp & _ & Hx)%list_elem_of_omap.
  by eapply list_elem_of_lookup_2.
Qed.

Lemma visited_length {A : Type} (xs : list A) (sc : schedule) :
  schedule_ok (length xs) sc → length (visited xs sc) = length xs.
Proof.
  intros [Hperm Hseen].
  assert (length sc = length xs) as <-.
  { rewrite <-(length_fmap born sc), Hperm. apply length_seq. }
  unfold visited. clear Hperm. induction Hseen as [|sp sc Hsp _ IH]; [done|].
  cbn [omap list_omap].
  destruct (lookup_lt_is_Some_2 xs (seen sp)) as [x ->]; [lia|].
  simpl. by rewrite IH.
Qed.

(** The calls of the second fan-out, for the nodes its members read. *)
Lemma connect_visited (nodes : list Node) (peerAddrs : list string)
    (first : option error) (sent : list dispatch) :
  (run_members Cancelled first (connect peerAddrs 0 <$> nodes) sent).1 =
  (sent ++ (connect_call peerAddrs <$> nodes))%list.
Proof.
  revert first sent. induction nodes as [|n nodes IH]; intros first sent.
  { simpl. by rewrite app_nil_r. }
  rewrite !fmap_cons. cbn [run_members].
  unfold connect at 1. cbn beta iota zeta.
  destruct (Run n Cancelled _) as [e|], first as [e0|];
    rewrite IH, <-(assoc_L app); reflexivity.
Qed.

(** What the first fan-out leaves in the slots when no member fails: the
    array keeps its size, and every slot holds what it held or the dial
    string of a reachable node of the set. *)
Lemma collect_slots (ns : list Node) (members : list (member (list string)))
    (peerAddrs peerAddrs' : list string) :
  (∀ f, f ∈ members → ∃ i n, ns !! i = Some n ∧ f = collect i n) →
  run_members ctx None members peerAddrs = (peerAddrs', None) →
  length peerAddrs' = length peerAddrs ∧
  ∀ a, a ∈ peerAddrs' →
    a ∈ peerAddrs ∨ ∃ n, n ∈ ns ∧ reachable ctx n ∧ a = dial_of ctx n.
Proof.
  revert peerAddrs.
  induction members as [|f members IH]; intros peerAddrs Hmembers Hrun.
  { injection Hrun as <-. split; [done|]. by left. }
  destruct (Hmembers f) as (i & n & Hi & ->); [by apply elem_of_cons; left|].
  cbn [run_members] in Hrun. unfold collect at 1 in Hrun.
  destruct (PeerInfo n ctx) as [peerInfo|e] eqn:Hinfo.
  2:{ by apply run_members_nil_first in Hrun. }
  case_decide as Haddrs.
  { by apply run_members_nil_first in Hrun. }
  destruct (IH (<[i := dial peerInfo]> peerAddrs)) as [Hlen Hslots].
  { intros f Hf. apply Hmembers. by apply elem_of_cons; right. }
  { exact Hrun. }
  rewrite length_insert in Hlen. split; [done|].
  intros a Ha. destruct (Hslots a Ha) as [Hold|Hnew]; [|by right].
  apply list_elem_of_lookup in Hold as [j Hj].
  destruct (decide (i = j)) as [->|Hne].
  - right. exists n. split; [by eapply list_elem_of_lookup_2|].
    assert (j < length peerAddrs)%nat as Hlt.
    { apply lookup_lt_Some in Hj. by rewrite length_insert in Hj. }
    rewrite list_lookup_insert_eq in Hj by done. injection Hj as <-.
    split; [|unfold dial_of; by rewrite Hinfo].
    exists peerInfo. split; [done|]. intros Hnil. apply Haddrs.
    by rewrite Hnil.
  - left. rewrite list_lookup_insert_ne in Hj by done.
    by eapply list_elem_of_lookup_2.
Qed.
End MoreConnectFacts.

(** X5: whatever the schedules, [Connect] either stops in the collecting
    phase, with an error and nothing sent, or sends one connect task per
    member of the second fan-out to the node that member reads.  All the
    tasks sent carry the same subject, the comma-joined contents of an array
    with one slot per node of the set, every slot empty or holding the dial
    string of a reachable node of the set; [Run] is called with a cancelled
    context, and only on nodes of the set.  When the second schedule is one
    the runtime can take, as many tasks are sent as there are nodes. *)
Theorem Connect_sends (collecting connecting : schedule) (ctx : Context)
    (ns : list Node) (sent : list dispatch) (err : option error) :
  Connect collecting connecting ctx ns = (sent, err) →
  (sent = [] ∧ is_Some err) ∨
  ∃ peerAddrs,
    length peerAddrs = length ns ∧
    (∀ a, a ∈ peerAddrs →
       a = EmptyString ∨ ∃ n, n ∈ ns ∧ reachable ctx n ∧ a = dial_of ctx n) ∧
    sent = connect_call peerAddrs <$> visited ns connecting ∧
    (∀ d, d ∈ sent →
       with_ctx d = Cancelled ∧
       task d = {| Type_ := TaskConnect; Subject := Join peerAddrs "," |} ∧
       ∃ n, n ∈ ns ∧ to d = node_ID n) ∧
    (schedule_ok (length ns) connecting → length sent = length ns).
Proof.
  unfold Connect. intros Hrun.
  destruct (Wait ctx (fanout ns collect collecting) _)
    as [peerAddrs [e|]] eqn:Hcollect.
  { injection Hrun as <- <-. left. by eauto. }
  right. exists peerAddrs.
  destruct (collect_slots ctx ns _ _ _ (fanout_members ns collect collecting)
              Hcollect) as [Hlen Hslots].
  rewrite length_replicate in Hlen.
  assert (sent = connect_call peerAddrs <$> visited ns connecting) as Hsent.
  { unfold Wait in Hrun. rewrite fanout_connect in Hrun.
    pose proof (connect_visited (visited ns connecting) peerAddrs None [])
      as Hcalls.
    rewrite Hrun in Hcalls. exact Hcalls. }
  split_and!; [done| |done| |].
  - intros a Ha. destruct (Hslots a Ha) as [Hold|Hnew]; [left|by right].
    by apply elem_of_replicate in Hold as [-> _].
  - intros d Hd. rewrite Hsent in Hd.
    apply list_elem_of_fmap in Hd as (n & -> & Hn).
    split_and!; [done|done|]. exists n. split; [|done].
    by eapply visited_elem_of.
  - intros Hok. by rewrite Hsent, length_fmap, visited_length.
Qed.

Lemma in_step_ok (len : nat) : schedule_ok len (in_step len).
Proof.
  unfold schedule_ok, in_step. split.
  - rewrite <-list_fmap_compose. simpl. by rewrite list_fmap_id.
  - apply Forall_fmap, Forall_forall. intros k Hk%elem_of_seq. simpl. lia.
Qed.

Lemma in_step_fresh (len : nat) : fresh (in_step len).
Proof. unfold fresh, in_step. apply Forall_fmap, Forall_forall. done. Qed.

Lemma example_nodes_reachable :
  Forall (reachable Background) [nodeA; nodeB; nodeC].
Proof. repeat constructor; eexists; (split; [reflexivity|done]). Qed.

Lemma Connect_example_after_loop :
  Connect (after_loop 2) (after_loop 2) Background [nodeA; nodeB] =
    (connect_call [EmptyString; "/ip4/10.0.0.2/tcp/4001/p2p/QmB"]
       <$> [nodeB; nodeB], None).
Proof. reflexivity. Qed.

Lemma Connect_sends_witness :
  Connect (after_loop 2) (after_loop 2) Background [nodeA; nodeB] =
    (connect_call [EmptyString; "/ip4/10.0.0.2/tcp/4001/p2p/QmB"]
       <$> [nodeB; nodeB], None) ∧
  ∀ d, d ∈ connect_call [EmptyString; "/ip4/10.0.0.2/tcp/4001/p2p/QmB"]
             <$> [nodeB; nodeB] →
    with_ctx d = Cancelled.
Proof.
  split; [exact Connect_example_after_loop|].
  destruct (Connect_sends _ _ _ _ _ _ Connect_example_after_loop)
    as [[Hnil _]|(peerAddrs & _ & _ & _ & Hall & _)]; [discriminate Hnil|].
  intros d Hd. exact (proj1 (Hall d Hd)).
Defined.


(** The broadcast runs under the cancelled context of the collecting
    group. *)
Lemma Connect_cancelled (collecting connecting : schedule) (ctx : Context)
    (ns : list Node) :
  schedule_ok (length ns) connecting →
  ns ≠ [] →
  (∀ n t, n ∈ ns → is_Some (Run n Cancelled t)) →
  is_Some (Connect collecting connecting ctx ns).2.
Proof.
  intros Hok Hns Hrun. unfold Connect.
  destruct (Wait ctx (fanout ns collect collecting) _) as [peerAddrs [e|]].
  { by eexists. }
  pose proof (visited_length ns connecting Hok) as Hlen.
  rewrite fanout_connect.
  destruct (visited ns connecting) as [|n nodes] eqn:Hvisited.
  { destruct ns; [done|discriminate Hlen]. }
  apply (Wait_fails Cancelled _ _ (connect peerAddrs 0 n)).
  - rewrite fmap_cons. by apply elem_of_cons; left.
  - intros s0. unfold connect. simpl. apply Hrun.
    apply (visited_elem_of ns connecting). rewrite Hvisited.
    by apply elem_of_cons; left.
Qed.




(** X7: when the set is not empty and every node's [Run] fails once its
    context is cancelled, [Connect] returns an error under every schedule the
    runtime can take: the broadcast group hands its members the context of
    the collecting group, which that group's [Wait] has cancelled. *)
Theorem Connect_fails_on_cancelled_context (collecting connecting : schedule)
    (ctx : Context) (ns : list Node) :
  schedule_ok (length ns) connecting →
  ns ≠ [] →
  (∀ n t, n ∈ ns → is_Some (Run n Cancelled t)) →
  is_Some (Connect collecting connecting ctx ns).2.
Proof. apply Connect_cancelled. Qed.

Lemma Connect_fails_on_cancelled_context_witness :
  schedule_ok 2 (in_step 2) ∧
  is_Some (Connect (in_step 2) (in_step 2) Background
             [polite_node "A" "role=x" ["/ip4/10.0.0.1/tcp/4001"];
              polite_node "B" "role=x" ["/ip4/10.0.0.2/tcp/4001"]]).2.
Proof.
  split; [exact (in_step_ok 2)|].
  apply (Connect_fails_on_cancelled_context (in_step 2) (in_step 2)
           Background).
  - exact (in_step_ok 2).
  - discriminate.
  - intros n t Hn. exists (Opaque "context canceled").
    apply elem_of_cons in Hn as [->|Hn]; [reflexivity|].
    apply elem_of_cons in Hn as [->|Hn]; [reflexivity|].
    by apply elem_of_nil in Hn.
Defined.

Lemma schedule_ok_one (sc : schedule) :
  schedule_ok 1 sc → sc = [{| born := 0; seen := 0 |}].
Proof.
  intros [Hperm Hseen]. simpl in Hperm.
  apply Permutation_singleton_r in Hperm.
  destruct sc as [|[b s] [|sp sc]]; try discriminate Hperm.
  injection Hperm as ->. apply Forall_cons in Hseen as [Hs _]. simpl in Hs.
  f_equal. f_equal. lia.
Qed.

(** X8: a set of at most one node leaves the goroutines no other node to
    read.  On the empty set [Connect] sends nothing and returns nil.  On a
    single node, under every schedule the runtime can take, it returns the
    node's [PeerInfo] error, or the zero-address error when the node lists no
    address, and otherwise sends the node one connect task whose subject is
    the node's own dial string and returns what [Run] returns. *)
Theorem Connect_small_sets (collecting connecting : schedule) (ctx : Context) :
  Connect collecting connecting ctx [] = ([], None) ∧
  ∀ n : Node,
    schedule_ok 1 collecting → schedule_ok 1 connecting →
    Connect collecting connecting ctx [n] =
      match PeerInfo n ctx with
      | Fail e => ([], Some e)
      | Ok peerInfo =>
          if decide (Addrs peerInfo = [])
          then ([], Some (ZeroAddresses (node_Address n)))
          else ([connect_call [dial peerInfo] n],
                Run n Cancelled
                  {| Type_ := TaskConnect; Subject := dial peerInfo |})
      end.
Proof.
  split.
  - unfold Connect. rewrite fanout_empty. simpl. by rewrite fanout_empty.
  - intros n ->%schedule_ok_one ->%schedule_ok_one.
    unfold Connect, Wait, fanout, collect. simpl.
    destruct (PeerInfo n ctx) as [peerInfo|e]; [|done].
    destruct (Addrs peerInfo) as [|addr addrs] eqn:Haddrs; [done|].
    simpl. unfold connect_call, dial. simpl. rewrite Haddrs. simpl.
    by destruct (Run n Cancelled _).
Qed.

Lemma Connect_small_sets_witness :
  schedule_ok 1 (in_step 1) ∧
  Connect (in_step 1) (in_step 1) Background [nodeA] =
    ([connect_call ["/ip4/10.0.0.1/tcp/4001/p2p/QmA"] nodeA], None).
Proof.
  split; [exact (in_step_ok 1)|].
  exact (proj2 (Connect_small_sets (in_step 1) (in_step 1) Background) nodeA
           (in_step_ok 1) (in_step_ok 1)).
Defined.

Lemma Connect_fresh_zero_addresses_witness :
  schedule_ok 2 (in_step 2) ∧ fresh (in_step 2) ∧
  ∃ err, Connect (in_step 2) (in_step 2) Background [nodeZ; nodeB] =
           ([], Some err).
Proof.
  split; [exact (in_step_ok 2)|]. split; [exact (in_step_fresh 2)|].
  exact (Connect_fresh_zero_addresses Background (in_step 2) (in_step 2)
           [nodeZ; nodeB] 0 nodeZ {| ID := "QmZ"; Addrs := [] |}
           (in_step_ok 2) (in_step_fresh 2) eq_refl eq_refl eq_refl).
Defined.

Lemma Connect_fresh_mesh_witness :
  schedule_ok 3 (in_step 3) ∧ fresh (in_step 3) ∧
  Forall (reachable Background) [nodeA; nodeB; nodeC] ∧
  ∃ sent err,
    Connect (in_step 3) (in_step 3) Background [nodeA; nodeB; nodeC] =
      (sent, err) ∧
    sent ≡ₚ connect_call (dial_of Background <$> [nodeA; nodeB; nodeC])
              <$> [nodeA; nodeB; nodeC].
Proof.
  split; [exact (in_step_ok 3)|]. split; [exact (in_step_fresh 3)|].
  split; [exact example_nodes_reachable|].
  exact (Connect_fresh_mesh Background (in_step 3) (in_step 3)
           [nodeA; nodeB; nodeC] (in_step_ok 3) (in_step_fresh 3)
           (in_step_ok 3) (in_step_fresh 3) example_nodes_reachable).
Defined.

(** ** Further properties of postBenchmarksCreate *)

Section MoreRunFacts.
Context `{Lab}.



End MoreRunFacts.

Section MoreRunTheorems.
Context `{Lab}.


(** X10: a run that returns an error adds no report, whatever the step
    that failed.  It leaves the benchmark records as they were, or with only
    the new record added under the benchmark id, in status Running. *)
Theorem failed_run_stores_no_report (sc : run_schedule) (now : Z)
    (JAEGER_UI : string) (seeder : Peer) (ctx : Context) (r : Request)
    (db : Store) (res : run_result) :
  postBenchmarksCreate sc now JAEGER_UI seeder ctx r db = Returns res →
  is_Some (returned res) →
  reports (db_after res) = reports db ∧
  (benchmarks (db_after res) = benchmarks db ∨
   ∃ lset queries benchmark,
     planned sc now seeder ctx r lset queries benchmark ∧
     Status benchmark = BenchmarkRunning ∧
     benchmarks (db_after res) =
       <[benchmark_id now r := benchmark]> (benchmarks db)).
Proof.
  intros Hrun [e He].
  apply postBenchmarksCreate_returns in Hrun
    as [(_ & -> & _)|(lset & queries & benchmark & Hplanned & _ & Hrun)];
    [by split; [|left]|].
  assert (benchmark_ID benchmark = benchmark_id now r ∧
          Status benchmark = BenchmarkRunning) as [Hid Hstatus].
  { by destruct Hplanned as (? & ? & ? & ? & _ & _ & _ & _ & _ & ->). }
  destruct Hrun as [(e0 & _ & _ & -> & _)|(_ & addrs & Hrun)];
    [by split; [|left]|].
  assert (db_after res = created db benchmark) as ->.
  { destruct Hrun as [(e0 & _ & _ & -> & _)|
                      (execution & report & written & _ & _ & Hupdate & _)];
      [done|].
    rewrite Update_persist in Hupdate. cbn zeta in Hupdate.
    repeat case_match; injection Hupdate as <- _ Herr;
      first [done|by rewrite He in Herr]. }
  split; [done|]. right. exists lset, queries, benchmark.
  split_and!; [done|done|]. unfold created. simpl. by rewrite Hid.
Qed.



(** X13: a run that resets a cluster whose nodes give up on a cancelled
    context never gets to planning: [Connect] fails, the handler returns an
    error without having called the store or the executor, and the store is
    as before. *)
Theorem reset_fails_when_nodes_respect_cancellation (sc : run_schedule)
    (now : Z) (JAEGER_UI : string) (seeder : Peer) (ctx : Context)
    (r : Request) (db : Store) (res : run_result) (mns : list NodeMeta) :
  postBenchmarksCreate sc now JAEGER_UI seeder ctx r db = Returns res →
  no_reset_of r = Ok false →
  ListNodes ctx (form_cluster r) = Ok mns →
  mns ≠ [] →
  schedule_ok (length mns) (connecting sc) →
  (∀ n t, n ∈ NewNode <$> mns → is_Some (Run n Cancelled t)) →
  is_Some (returned res) ∧ calls res = [] ∧ db_after res = db.
Proof.
  unfold postBenchmarksCreate, no_reset_of.
  intros Hrun Hflag Hnodes Hne Hok Hpolite. rewrite Hflag in Hrun.
  destruct (GetScenario ctx _) as [scenario|e];
    [|by injection Hrun as <-].
  destruct (GetCluster ctx _) as [cluster|e];
    [|by injection Hrun as <-].
  rewrite Hnodes in Hrun.
  destruct (nodes_Update ctx _) as [e|]; [by injection Hrun as <-|].
  pose proof (Connect_cancelled (collecting sc) (connecting sc) ctx
                (NewNode <$> mns)) as [e He].
  { by rewrite length_fmap. }
  { by destruct mns. }
  { exact Hpolite. }
  destruct (Connect _ _ _ _) as [sent0 err0]. simpl in He. subst err0.
  by injection Hrun as <-.
Qed.

(** X14: the response carries the benchmark id as its resource id exactly
    when the flag parsed and the scenario and the cluster were found, also
    when the run fails later; otherwise it carries none. *)
Theorem resource_id_set_once_cluster_found (sc : run_schedule) (now : Z)
    (JAEGER_UI : string) (seeder : Peer) (ctx : Context) (r : Request)
    (db : Store) (res : run_result) :
  postBenchmarksCreate sc now JAEGER_UI seeder ctx r db = Returns res →
  (ResourceID res = Some (benchmark_id now r) ∨ ResourceID res = None) ∧
  (ResourceID res = Some (benchmark_id now r) ↔
   (∃ noReset, no_reset_of r = Ok noReset) ∧
   (∃ scenario, GetScenario ctx (form_scenario r) = Ok scenario) ∧
   (∃ cluster, GetCluster ctx (form_cluster r) = Ok cluster)).
Proof.
  unfold postBenchmarksCreate, no_reset_of, benchmark_id. intros Hrun.
  destruct (if decide (form_no_reset r ≠ EmptyString) then _ else _)
    as [noReset|e].
  2:{ injection Hrun as <-. simpl. split; [by right|].
      split; [done|]. by intros [[? [=]] _]. }
  destruct (GetScenario ctx _) as [scenario|e].
  2:{ injection Hrun as <-. simpl. split; [by right|].
      split; [done|]. by intros (_ & [? [=]] & _). }
  destruct (GetCluster ctx _) as [cluster|e].
  2:{ injection Hrun as <-. simpl. split; [by right|].
      split; [done|]. by intros (_ & _ & [? [=]]). }
  assert (ResourceID res =
          Some (form_cluster r +:+ "-" +:+ form_scenario r +:+ "-" +:+
                pretty now)) as ->.
  { destruct (ListNodes ctx _) as [mns|e]; [|by injection Hrun as <-].
    destruct (if noReset then _ else _) as [sent0 [e|]];
      [by injection Hrun as <-|].
    destruct (Plan ctx seeder _ _ _) as [[[plan queries] [e|]]|];
      [by injection Hrun as <-| |done].
    unfold CreateBenchmark in Hrun.
    destruct (store_fault OpCreateBenchmark); [by injection Hrun as <-|].
    destruct (scenarios_Run ctx _ plan _)
      as [[[[Start End] nodeReports] traceID]|e];
      [|by injection Hrun as <-].
    destruct (Update _ _) as [[db' written] err].
    by injection Hrun as <-. }
  split; [by left|]. split; [|done]. intros _. split_and!; by eexists.
Qed.
End MoreRunTheorems.


Lemma returned_failed_execution :
  returned_of (run_example failed_execution no_fault) =
    Some (Some (Wrap (Opaque "node C: task failed")
                  "failed to run scenario plan")).
Proof. vm_compute. exact eq_refl. Qed.


Lemma returned_polite :
  returned_of (run_request polite_lab polite_run_schedule example_request) =
    Some (Some (Wrap (Opaque "context canceled")
                  "failed to connect cluster")).
Proof. vm_compute. exact eq_refl. Qed.



Lemma failed_run_stores_no_report_witness :
  match run_example failed_execution no_fault with
  | Returns res =>
      is_Some (returned res) ∧ reports (db_after res) = ∅
  | Panics => False
  end.
Proof.
  pose proof returned_failed_execution as Herr.
  destruct (run_example failed_execution no_fault) as [res|] eqn:Hrun;
    [|discriminate Herr].
  injection Herr as Herr.
  assert (is_Some (returned res)) as Hsome by (rewrite Herr; by eexists).
  split; [exact Hsome|].
  exact (proj1 (failed_run_stores_no_report
                  (H := example_lab failed_execution no_fault)
                  example_run_schedule 42 "http://jaeger:16686" example_peer
                  Background example_request empty_store res Hrun Hsome)).
Defined.



Lemma reset_fails_when_nodes_respect_cancellation_witness :
  match run_request polite_lab polite_run_schedule example_request with
  | Returns res => is_Some (returned res) ∧ calls res = [] ∧
                   db_after res = empty_store
  | Panics => False
  end.
Proof.
  pose proof returned_polite as Herr.
  destruct (run_request polite_lab _ _) as [res|] eqn:Hrun;
    [|discriminate Herr].
  apply (reset_fails_when_nodes_respect_cancellation (H := polite_lab)
           polite_run_schedule 42 "http://jaeger:16686" example_peer
           Background example_request empty_store res
           [polite_node "A" "role=x" ["/ip4/10.0.0.1/tcp/4001"];
            polite_node "B" "role=y" ["/ip4/10.0.0.2/tcp/4001"]] Hrun).
  - reflexivity.
  - reflexivity.
  - discriminate.
  - exact (in_step_ok 2).
  - intros n t Hn. exists (Opaque "context canceled").
    apply elem_of_cons in Hn as [->|Hn]; [reflexivity|].
    apply elem_of_cons in Hn as [->|Hn]; [reflexivity|].
    by apply elem_of_nil in Hn.
Defined.

Lemma resource_id_set_once_cluster_found_witness :
  match run_example failed_execution no_fault with
  | Returns res =>
      is_Some (returned res) ∧ ResourceID res = Some "c1-s1-42"
  | Panics => False
  end.
Proof.
  pose proof returned_failed_execution as Herr.
  destruct (run_example failed_execution no_fault) as [res|] eqn:Hrun;
    [|discriminate Herr].
  injection Herr as Herr.
  split; [rewrite Herr; by eexists|].
  apply (resource_id_set_once_cluster_found
           (H := example_lab failed_execution no_fault)
           example_run_schedule 42 "http://jaeger:16686" example_peer
           Background example_request empty_store res Hrun).
  split; [by exists false|].
  split; [by eexists|by eexists].
Defined.

(** ** Properties of deleteBenchmarks *)

Lemma Split_length s sep : length (Split s sep) = S (occurrences sep s).
Proof.
  induction s as [|c rest IH]; [done|]. simpl.
  case_decide; simpl; [by rewrite IH|].
  by destruct (Split rest sep); simpl in *.
Qed.

Lemma Join_String c a elems sep :
  Join (String c a :: elems) sep = String c (Join (a :: elems) sep).
Proof. by destruct elems. Qed.

Lemma Join_Split s sep :
  Join (Split s sep) (String sep EmptyString) = s.
Proof.
  induction s as [|c rest IH]; [done|].
  pose proof (Split_length rest sep) as Hlen. simpl.
  case_decide as Hc.
  - destruct (Split rest sep) as [|a elems]; [discriminate Hlen|].
    simpl in *. by rewrite IH, Hc.
  - destruct (Split rest sep) as [|a elems]; [discriminate Hlen|].
    by rewrite Join_String, IH.
Qed.

Lemma Split_pieces s sep id :
  id ∈ Split s sep → occurrences sep id = 0.
Proof.
  revert id. induction s as [|c rest IH]; intros id; simpl.
  - intros Hid. apply elem_of_cons in Hid as [->|Hid]; [done|].
    by apply elem_of_nil in Hid.
  - case_decide as Hc.
    + intros Hid. apply elem_of_cons in Hid as [->|Hid]; [done|]. by apply IH.
    + destruct (Split rest sep) as [|a elems].
      * intros Hid. apply elem_of_cons in Hid as [->|Hid].
        -- simpl. by rewrite decide_False.
        -- by apply elem_of_nil in Hid.
      * intros Hid. apply elem_of_cons in Hid as [->|Hid].
        -- simpl. rewrite decide_False by done. apply IH.
           by apply elem_of_cons; left.
        -- apply IH. by apply elem_of_cons; right.
Qed.

(** X15: the handler hands the store the pieces of the form field [ids]
    between its commas.  There is one piece more than there are commas, so
    the store is never called without an id (an empty or missing field gives
    the single empty id); no piece contains a comma; and the pieces joined by
    commas are the field again.  The store's answer is returned as it is. *)
Theorem deleteBenchmarks_ids (form_ids : string) :
  ∃ ids : list string,
    (∀ DeleteBenchmarks ctx,
       deleteBenchmarks DeleteBenchmarks ctx form_ids =
       DeleteBenchmarks ctx ids) ∧
    length ids = S (occurrences ","%char form_ids) ∧
    Forall (λ id, occurrences ","%char id = 0) ids ∧
    Join ids "," = form_ids.
Proof.
  exists (Split form_ids ","%char). split_and!.
  - intros D ctx. unfold deleteBenchmarks. simpl. by destruct (D ctx _).
  - apply Split_length.
  - apply Forall_forall. intros id. apply Split_pieces.
  - apply Join_Split.
Qed.
